(** * txt-cwClassifier: the categorization engine of [main.go]

    A shallow embedding of the Go program and the properties of its
    script filter, character extractor, classifier, phrase chunker and
    frequency ranker.

    Go strings are byte sequences; they are modelled by [string] (a list
    of 8-bit [ascii] characters).  A [rune] is a Go [int32], modelled by
    [Z].  The loops [for _, r := range text] and the conversions
    [[]rune(s)], [string(runes)] and [string(r)] go through the UTF-8
    decoder and encoder of the Go runtime, which are written out below. *)

From Stdlib Require Import ZArith Lia List Ascii String Bool.
From stdpp Require Import gmap strings list fin_maps sorting.

Local Open Scope Z_scope.

(** ** Go runtime: UTF-8 ([runtime/utf8.go]) *)

Module utf8.

Definition RuneError : Z := 0xFFFD.
Definition RuneSelf : Z := 0x80.
Definition MaxRune : Z := 0x10FFFF.

Definition surrogateMin : Z := 0xD800.
Definition surrogateMax : Z := 0xDFFF.

Definition t1 : Z := 0x00.
Definition tx : Z := 0x80.
Definition t2 : Z := 0xC0.
Definition t3 : Z := 0xE0.
Definition t4 : Z := 0xF0.
Definition t5 : Z := 0xF8.

Definition maskx : Z := 0x3F.
Definition mask2 : Z := 0x1F.
Definition mask3 : Z := 0x0F.
Definition mask4 : Z := 0x07.

Definition rune1Max : Z := 127.
Definition rune2Max : Z := 2047.
Definition rune3Max : Z := 65535.

Definition locb : Z := 0x80.
Definition hicb : Z := 0xBF.

(** The value of a byte of a string, [0 <= s[i] < 256]. *)
Definition byteZ (c : ascii) : Z := Z.of_N (N_of_ascii c).

(** The conversion [byte(x)]: the low eight bits. *)
Definition byte (x : Z) : ascii := ascii_of_N (Z.to_N (x mod 256)).

(** The conversion [uint32(r)] of an [int32]. *)
Definition uint32 (r : Z) : Z := r mod 2 ^ 32.

(** [locb <= b && b <= hicb]: a continuation byte. *)
Definition iscont (c : ascii) : bool :=
  (locb <=? byteZ c) && (byteZ c <=? hicb).

(** [s[k:]] for [k <= len(s)]. *)
Fixpoint string_drop (k : nat) (s : string) : string :=
  match k, s with
  | O, _ => s
  | S k', EmptyString => EmptyString
  | S k', String _ s' => string_drop k' s'
  end.

(** [decoderune(s, k)] on the suffix [s[k:]]: the rune at the front of
    the string and the number of bytes it takes.  An encoding that is
    invalid, too short, overlong, a surrogate or out of range gives
    [(RuneError, 1)]. *)
Definition decoderune (s : string) : Z * nat :=
  match s with
  | EmptyString => (RuneError, 1%nat)
  | String c0 s1 =>
    let b0 := byteZ c0 in
    if (t2 <=? b0) && (b0 <? t3) then
      match s1 with
      | String c1 _ =>
        if iscont c1 then
          let r := Z.lor (Z.shiftl (Z.land b0 mask2) 6)
                         (Z.land (byteZ c1) maskx) in
          if rune1Max <? r then (r, 2%nat) else (RuneError, 1%nat)
        else (RuneError, 1%nat)
      | _ => (RuneError, 1%nat)
      end
    else if (t3 <=? b0) && (b0 <? t4) then
      match s1 with
      | String c1 (String c2 _) =>
        if iscont c1 && iscont c2 then
          let r := Z.lor (Z.lor (Z.shiftl (Z.land b0 mask3) 12)
                                (Z.shiftl (Z.land (byteZ c1) maskx) 6))
                         (Z.land (byteZ c2) maskx) in
          if (rune2Max <? r)
             && negb ((surrogateMin <=? r) && (r <=? surrogateMax))
          then (r, 3%nat) else (RuneError, 1%nat)
        else (RuneError, 1%nat)
      | _ => (RuneError, 1%nat)
      end
    else if (t4 <=? b0) && (b0 <? t5) then
      match s1 with
      | String c1 (String c2 (String c3 _)) =>
        if iscont c1 && iscont c2 && iscont c3 then
          let r := Z.lor (Z.lor (Z.lor
                     (Z.shiftl (Z.land b0 mask4) 18)
                     (Z.shiftl (Z.land (byteZ c1) maskx) 12))
                     (Z.shiftl (Z.land (byteZ c2) maskx) 6))
                     (Z.land (byteZ c3) maskx) in
          if (rune3Max <? r) && (r <=? MaxRune)
          then (r, 4%nat) else (RuneError, 1%nat)
        else (RuneError, 1%nat)
      | _ => (RuneError, 1%nat)
      end
    else (RuneError, 1%nat)
  end.

(** One step of [for _, r := range s]: bytes below [RuneSelf] are
    taken as they are, the others go through [decoderune]. *)
Definition rangestep (s : string) : Z * nat :=
  match s with
  | EmptyString => (RuneError, 1%nat)
  | String c0 _ =>
    if byteZ c0 <? RuneSelf then (byteZ c0, 1%nat) else decoderune s
  end.

(** The runes that [for _, r := range s] visits, which are also the
    elements of [[]rune(s)] ([stringtoslicerune]).  Every step
    consumes at least one byte, so [n = len(s)] steps are enough. *)
Fixpoint rangeloop (n : nat) (s : string) : list Z :=
  match n, s with
  | O, _ => []
  | _, EmptyString => []
  | S n', _ =>
    let '(r, w) := rangestep s in r :: rangeloop n' (string_drop w s)
  end.

Definition stringtoslicerune (s : string) : list Z :=
  rangeloop (String.length s) s.

(** [encoderune(p, r)]: the bytes written to [p]. *)
Definition encoderune (r : Z) : string :=
  let i := uint32 r in
  if i <=? rune1Max then
    String (byte r) EmptyString
  else if i <=? rune2Max then
    String (byte (Z.lor t2 (byteZ (byte (Z.shiftr r 6)))))
    (String (byte (Z.lor tx (Z.land (byteZ (byte r)) maskx)))
     EmptyString)
  else
    let three (r : Z) :=
      String (byte (Z.lor t3 (byteZ (byte (Z.shiftr r 12)))))
      (String (byte (Z.lor tx (Z.land (byteZ (byte (Z.shiftr r 6))) maskx)))
      (String (byte (Z.lor tx (Z.land (byteZ (byte r)) maskx)))
       EmptyString)) in
    if (MaxRune <? i) || ((surrogateMin <=? i) && (i <=? surrogateMax)) then
      three RuneError
    else if i <=? rune3Max then
      three r
    else
      String (byte (Z.lor t4 (byteZ (byte (Z.shiftr r 18)))))
      (String (byte (Z.lor tx (Z.land (byteZ (byte (Z.shiftr r 12))) maskx)))
      (String (byte (Z.lor tx (Z.land (byteZ (byte (Z.shiftr r 6))) maskx)))
      (String (byte (Z.lor tx (Z.land (byteZ (byte r)) maskx)))
       EmptyString))).

(** [string(r)] for a rune [r] ([intstring]). *)
Definition intstring (r : Z) : string := encoderune r.

(** [string(runes)] ([slicerunetostring]). *)
Fixpoint slicerunetostring (a : list Z) : string :=
  match a with
  | [] => EmptyString
  | r :: a' => String.append (encoderune r) (slicerunetostring a')
  end.

(** [utf8.ValidString(s)]: no step of the decoder fails.  A failing
    step is one on a byte [>= RuneSelf] that consumes a single byte. *)
Definition validstep (s : string) : bool :=
  match s with
  | EmptyString => true
  | String c0 _ =>
    (byteZ c0 <? RuneSelf) || negb (Nat.eqb (snd (decoderune s)) 1)
  end.

Fixpoint validloop (n : nat) (s : string) : bool :=
  match n, s with
  | O, _ => true
  | _, EmptyString => true
  | S n', _ =>
    validstep s && validloop n' (string_drop (snd (rangestep s)) s)
  end.

Definition ValidString (s : string) : bool :=
  validloop (String.length s) s.

(** [utf8.ValidRune(r)]: a Unicode scalar value. *)
Definition ValidRune (r : Z) : bool :=
  ((0 <=? r) && (r <? surrogateMin))
  || ((surrogateMax <? r) && (r <=? MaxRune)).

End utf8.

(** ** Go library: [strings.Join] *)

Fixpoint Join (elems : list string) (sep : string) : string :=
  match elems with
  | [] => EmptyString
  | [e] => e
  | e :: elems' => String.append e (String.append sep (Join elems' sep))
  end.

(** ** Reference instances of the library functions

    [unicode.Is(unicode.Han, r)], [unicode.ToUpper], [strings.EqualFold],
    the iteration order of a Go map and [sort.Slice] belong to the Go
    distribution, not to this program: the program is defined over them
    as parameters.  The definitions of this part instantiate the
    parameters to run the program on concrete inputs. *)

Module ref.

(** The table [unicode.Han] of Unicode 15.0.0: ranges [(Lo, Hi, Stride)]. *)
Definition Han_table : list (Z * Z * Z) :=
  [ (0x2e80, 0x2e99, 1); (0x2e9b, 0x2ef3, 1); (0x2f00, 0x2fd5, 1);
    (0x3005, 0x3007, 2); (0x3021, 0x3029, 1); (0x3038, 0x303b, 1);
    (0x3400, 0x4dbf, 1); (0x4e00, 0x9fff, 1); (0xf900, 0xfa6d, 1);
    (0xfa70, 0xfad9, 1);
    (0x16fe2, 0x16fe3, 1); (0x16ff0, 0x16ff1, 1); (0x20000, 0x2a6df, 1);
    (0x2a700, 0x2b739, 1); (0x2b740, 0x2b81d, 1); (0x2b820, 0x2cea1, 1);
    (0x2ceb0, 0x2ebe0, 1); (0x2f800, 0x2fa1d, 1); (0x30000, 0x3134a, 1);
    (0x31350, 0x323af, 1) ].

Definition inRange (r : Z) (rg : Z * Z * Z) : bool :=
  let '(lo, hi, stride) := rg in
  (lo <=? r) && (r <=? hi) && ((r - lo) mod stride =? 0).

Definition Han (r : Z) : bool := existsb (inRange r) Han_table.

(** [unicode.ToUpper] on its ASCII path; other runes are left as they
    are (no rune of the Han script has a case mapping). *)
Definition ToUpper (r : Z) : Z :=
  if (97 <=? r) && (r <=? 122) then r - 32 else r.

(** Equality of strings up to the case of ASCII letters. *)
Definition lower (c : ascii) : ascii :=
  let b := utf8.byteZ c in
  if (65 <=? b) && (b <=? 90) then utf8.byte (b + 32) else c.

Fixpoint EqualFold (s t : string) : bool :=
  match s, t with
  | EmptyString, EmptyString => true
  | String a s', String b t' =>
    Ascii.eqb (lower a) (lower b) && EqualFold s' t'
  | _, _ => false
  end.

(** A stable insertion sort. *)
Fixpoint insert {A} (less : A -> A -> bool) (x : A) (l : list A) : list A :=
  match l with
  | [] => [x]
  | y :: l' => if less y x then y :: insert less x l' else x :: l
  end.

Definition sortSlice {A} (less : A -> A -> bool) (l : list A) : list A :=
  foldr (insert less) [] l.

End ref.

(** ** The program *)

(** [prose.Token]: the surface text of a token and its part-of-speech tag. *)
Record Token : Set := { Tag : string; Text : string }.

(** The element type of the slice sorted by [sortByFrequency]. *)
Record itemFrequency : Set := { Item : string; Frequency : nat }.

(** [results[k] = append(results[k], xs...)]; a missing key reads as the
    nil slice. *)
Definition appendTo (results : gmap string (list string)) (k : string)
    (xs : list string) : gmap string (list string) :=
  <[k := (results !!! k) ++ xs]> results.

Definition categoryFiles : list (string * string) :=
  [ ("ChineseCharacters", "ChineseCharacters.txt");
    ("ChineseAdjectives", "ChineseAdjectives.txt");
    ("ChineseAdverbs", "ChineseAdverbs.txt");
    ("ChineseCommonPhrases", "ChineseCommonPhrases.txt");
    ("ChineseIdioms", "ChineseIdioms.txt");
    ("ChineseNouns", "ChineseNouns.txt");
    ("ChineseNounPhrases", "ChineseNounPhrases.txt");
    ("ChineseSlang", "ChineseSlang.txt");
    ("ChineseVerbPhrases", "ChineseVerbPhrases.txt");
    ("ChineseVerbs", "ChineseVerbs.txt");
    ("ChineseOtherExpressions", "ChineseOtherExpressions.txt") ]%string.

Definition idioms : list string :=
  [ "井底之蛙"; "守株待兔"; "画蛇添足"; "纸上谈兵" ]%string.

Definition slang : list string :=
  [ "吃土"; "学霸"; "宅男"; "高富帅" ]%string.

(** The tags that continue a noun phrase: [case "DT", "NN", "JJ"]. *)
Definition nounGroup (tag : string) : bool :=
  String.eqb tag "DT" || String.eqb tag "NN" || String.eqb tag "JJ".

(** The tags that continue a verb phrase: [case "VB", "RB", "MD"]. *)
Definition verbGroup (tag : string) : bool :=
  String.eqb tag "VB" || String.eqb tag "RB" || String.eqb tag "MD".

(** The key of [results] chosen by [switch tok.Tag] in the classifier. *)
Definition primaryCategory (tag : string) : string :=
  if String.eqb tag "NN" then "ChineseNouns"
  else if String.eqb tag "VB" then "ChineseVerbs"
  else if String.eqb tag "JJ" then "ChineseAdjectives"
  else if String.eqb tag "RB" then "ChineseAdverbs"
  else "ChineseOtherExpressions".

Section Program.

Set Default Proof Using "Type".

(** [unicode.Is(unicode.Han, r)]. *)
Variable Han : Z -> bool.
(** [unicode.ToUpper(r)]. *)
Variable ToUpper : Z -> Z.
(** [strings.EqualFold(s, t)]. *)
Variable EqualFold : string -> string -> bool.
(** The order in which [for item, freq := range counts] visits a map. *)
Variable rangeMap : gmap string nat -> list (string * nat).
(** [sort.Slice(items, less)]. *)
Variable sortSlice :
  (itemFrequency -> itemFrequency -> bool) ->
  list itemFrequency -> list itemFrequency.

(** The body of the loop of [isChineseText] over the runes of the
    text, with its early [return false]. *)
Fixpoint isChineseRunes (rs : list Z) : bool :=
  match rs with
  | [] => true
  | r :: rs' =>
    if negb (Han r) && negb (r =? 32) && negb (r =? 45) then false
    else isChineseRunes rs'
  end.

Definition isChineseText (text : string) : bool :=
  isChineseRunes (utf8.stringtoslicerune text).

Definition extractChineseCharacters (text : string) : list string :=
  fold_left
    (fun characters r =>
       if Han r then characters ++ [utf8.intstring r] else characters)
    (utf8.stringtoslicerune text) [].

Definition capitalizePhrase (phrase : string) : string :=
  let runes := utf8.stringtoslicerune phrase in
  let runes :=
    match runes with
    | r0 :: rest => ToUpper r0 :: rest
    | [] => runes
    end in
  utf8.slicerunetostring runes.

(** [counts[capitalizedItem]++]; a missing key reads as [0].  A count
    is at most [len(content)], so the Go [int] never wraps. *)
Definition countFrequencies (content : list string) : gmap string nat :=
  fold_left
    (fun counts item =>
       let capitalizedItem := capitalizePhrase item in
       <[capitalizedItem := S (default O (counts !! capitalizedItem))]> counts)
    content ∅.

(** [less(i, j) = items[i].Frequency > items[j].Frequency]. *)
Definition byFrequency (a b : itemFrequency) : bool :=
  (Frequency b <? Frequency a)%nat.

Definition sortByFrequency (counts : gmap string nat) : list string :=
  let items :=
    map (fun '(item, freq) => {| Item := item; Frequency := freq |})
        (rangeMap counts) in
  let items := sortSlice byFrequency items in
  map Item items.

(** One iteration of the loop shared by [extractNounPhrases] and
    [extractVerbPhrases]; [group] is the [case] list of the [switch].
    The state is [(phrases, currentPhrase)]. *)
Definition chunkStep (group : string -> bool)
    (st : list string * list string) (tok : Token)
    : list string * list string :=
  let '(phrases, currentPhrase) := st in
  if isChineseText (Text tok) then
    if group (Tag tok) then (phrases, currentPhrase ++ [Text tok])
    else if (0 <? length currentPhrase)%nat
         then (phrases ++ [Join currentPhrase " "], [])
         else (phrases, currentPhrase)
  else (phrases, currentPhrase).

Definition chunkPhrases (group : string -> bool) (tokens : list Token)
    : list string :=
  let '(phrases, currentPhrase) :=
    fold_left (chunkStep group) tokens ([], []) in
  if (0 <? length currentPhrase)%nat
  then phrases ++ [Join currentPhrase " "]
  else phrases.

Definition extractNounPhrases (tokens : list Token) : list string :=
  chunkPhrases nounGroup tokens.

Definition extractVerbPhrases (tokens : list Token) : list string :=
  chunkPhrases verbGroup tokens.

Fixpoint matchesPhraseList (phrase : string) (list : list string) : bool :=
  match list with
  | [] => false
  | item :: list' =>
    if EqualFold item phrase then true else matchesPhraseList phrase list'
  end.

(** One iteration of the token loop of [categorizeChineseText]. *)
Definition categorizeStep (idioms slang : list string)
    (results : gmap string (list string)) (tok : Token)
    : gmap string (list string) :=
  let text := Text tok in
  if isChineseText text then
    let results :=
      appendTo results "ChineseCharacters" (extractChineseCharacters text) in
    let results := appendTo results (primaryCategory (Tag tok)) [text] in
    let results :=
      if matchesPhraseList text idioms
      then appendTo results "ChineseIdioms" [text] else results in
    let results :=
      if matchesPhraseList text slang
      then appendTo results "ChineseSlang" [text] else results in
    results
  else results.

(** The map [results] once the token loop and the two phrase
    extractions are done. *)
Definition categorize (idioms slang : list string) (tokens : list Token)
    : gmap string (list string) :=
  let results := fold_left (categorizeStep idioms slang) tokens ∅ in
  let results := <["ChineseNounPhrases" := extractNounPhrases tokens]> results in
  let results := <["ChineseVerbPhrases" := extractVerbPhrases tokens]> results in
  results.

(** The frequency ranker applied to one category's items. *)
Definition rank (items : list string) : list string :=
  sortByFrequency (countFrequencies items).

(** What is written to the file of a category: each ranked item and a
    newline. *)
Fixpoint writeLines (sortedContent : list string) : string :=
  match sortedContent with
  | [] => EmptyString
  | item :: rest =>
    String.append (String.append item (String "010" EmptyString))
                  (writeLines rest)
  end.

(** [categorizeChineseText] from the tokens of the document on: the
    content of each output file, by file name. *)
Definition categorizeChineseText (tokens : list Token) : gmap string string :=
  let results := categorize idioms slang tokens in
  fold_left
    (fun files '(category, filename) =>
       <[filename := writeLines (rank (results !!! category))]> files)
    categoryFiles ∅.

(** The errors that [categorizeChineseText] returns: the input file
    cannot be opened, the scanner fails, [prose.NewDocument] fails, or
    the output file of a category cannot be created. *)
Inductive runError : Set :=
| failedOpen
| errorReading
| errorProse
| failedCreate (category : string).

(** The loop [for category, filename := range categoryFiles] with its
    early [return]: [order] is the order in which the map is visited,
    [creatable filename] tells whether [os.Create] succeeds on the file,
    and the state is the content of the output directory, by file
    name. *)
Fixpoint writeCategories (creatable : string -> bool)
    (results : gmap string (list string)) (order : list (string * string))
    (dir : gmap string string) : gmap string string * option runError :=
  match order with
  | [] => (dir, None)
  | (category, filename) :: order' =>
    if creatable filename then
      writeCategories creatable results order'
        (<[filename := writeLines (rank (results !!! category))]> dir)
    else (dir, Some (failedCreate category))
  end.

(** [content += scanner.Text() + " "] for every line of the input. *)
Definition readContent (lines : list string) : string :=
  fold_left
    (fun content line => String.append content (String.append line " "))
    lines EmptyString.

(** [categorizeChineseText] with its reading and writing.  [input] is
    [None] when [os.Open] fails, and else the lines that the scanner
    yields and whether [scanner.Err()] is set; [NewDocument] is
    [prose.NewDocument] followed by [doc.Tokens()]. *)
Definition categorizeChineseTextRun
    (NewDocument : string -> option (list Token))
    (input : option (list string * bool)) (creatable : string -> bool)
    (order : list (string * string)) (dir : gmap string string)
    : gmap string string * option runError :=
  match input with
  | None => (dir, Some failedOpen)
  | Some (lines, scanErr) =>
    let content := readContent lines in
    if scanErr then (dir, Some errorReading)
    else
      match NewDocument content with
      | None => (dir, Some errorProse)
      | Some tokens =>
        writeCategories creatable (categorize idioms slang tokens) order dir
      end
  end.

(** ** What the program relies on from the Go distribution

    Of the [unicode] package: characters of the Han script have no upper
    case; [unicode.ToUpper] leaves the space and the hyphen alone (its
    ASCII path changes [a]..[z] only) and maps Unicode scalar values to
    Unicode scalar values; U+FFFD is not in the Han script, and the
    block U+4E00..U+9FA5 of CJK unified ideographs is.  Of the runtime:
    ranging over a map visits each entry once, in some order.  Of the
    [sort] package: [sort.Slice] permutes the slice so that no element
    is [less] than one before it.  A property below is stated under the
    assumptions named in its [Proof using] line, and under no other. *)

Hypothesis ToUpper_Han : forall r, Han r = true -> ToUpper r = r.
Hypothesis ToUpper_space : ToUpper 32 = 32.
Hypothesis ToUpper_hyphen : ToUpper 45 = 45.
Hypothesis ToUpper_valid :
  forall r, utf8.ValidRune r = true -> utf8.ValidRune (ToUpper r) = true.
Hypothesis Han_RuneError : Han utf8.RuneError = false.
Hypothesis Han_cjk : forall r, 0x4E00 <= r <= 0x9FA5 -> Han r = true.
Hypothesis rangeMap_perm : forall m, rangeMap m ≡ₚ map_to_list m.
Hypothesis sortSlice_perm : forall l, sortSlice byFrequency l ≡ₚ l.
Hypothesis sortSlice_sorted :
  forall l, StronglySorted (fun a b => byFrequency b a = false)
                           (sortSlice byFrequency l).

(** * Properties *)

(** ** Bit operations as arithmetic *)

Lemma land_shiftl_low (hi lo n : Z) :
  0 <= n -> 0 <= lo < 2 ^ n -> Z.land (Z.shiftl hi n) lo = 0.
Proof.
  intros Hn Hlo. apply Z.bits_inj'. intros m Hm.
  rewrite Z.land_spec, Z.bits_0.
  destruct (Z.lt_ge_cases m n) as [Hlt|Hge].
  - rewrite Z.shiftl_spec_low by lia. reflexivity.
  - rewrite <- (Z.mod_small lo (2 ^ n)) by lia.
    rewrite Z.mod_pow2_bits_high by lia. apply andb_false_r.
Qed.

Lemma lor_shiftl_add (hi lo n : Z) :
  0 <= n -> 0 <= lo < 2 ^ n -> Z.lor (Z.shiftl hi n) lo = hi * 2 ^ n + lo.
Proof.
  intros Hn Hlo.
  pose proof (Z.add_lor_land (Z.shiftl hi n) lo) as H.
  rewrite land_shiftl_low in H by assumption.
  rewrite Z.shiftl_mul_pow2 in * by assumption. lia.
Qed.

Lemma land_maskx (b : Z) : Z.land b utf8.maskx = b mod 64.
Proof. change utf8.maskx with (Z.ones 6). now rewrite Z.land_ones. Qed.

Lemma land_mask2 (b : Z) : Z.land b utf8.mask2 = b mod 32.
Proof. change utf8.mask2 with (Z.ones 5). now rewrite Z.land_ones. Qed.

Lemma land_mask3 (b : Z) : Z.land b utf8.mask3 = b mod 16.
Proof. change utf8.mask3 with (Z.ones 4). now rewrite Z.land_ones. Qed.

Lemma land_mask4 (b : Z) : Z.land b utf8.mask4 = b mod 8.
Proof. change utf8.mask4 with (Z.ones 3). now rewrite Z.land_ones. Qed.

Lemma lor_tx (x : Z) : 0 <= x < 64 -> Z.lor utf8.tx x = 128 + x.
Proof.
  intros H. change utf8.tx with (Z.shiftl 2 6).
  rewrite lor_shiftl_add by lia. lia.
Qed.

Lemma lor_t2 (x : Z) : 0 <= x < 32 -> Z.lor utf8.t2 x = 192 + x.
Proof.
  intros H. change utf8.t2 with (Z.shiftl 6 5).
  rewrite lor_shiftl_add by lia. lia.
Qed.

Lemma lor_t3 (x : Z) : 0 <= x < 16 -> Z.lor utf8.t3 x = 224 + x.
Proof.
  intros H. change utf8.t3 with (Z.shiftl 14 4).
  rewrite lor_shiftl_add by lia. lia.
Qed.

Lemma lor_t4 (x : Z) : 0 <= x < 8 -> Z.lor utf8.t4 x = 240 + x.
Proof.
  intros H. change utf8.t4 with (Z.shiftl 30 3).
  rewrite lor_shiftl_add by lia. lia.
Qed.

(** ** Bytes *)

Lemma byteZ_range (c : ascii) : 0 <= utf8.byteZ c < 256.
Proof.
  unfold utf8.byteZ. pose proof (N_ascii_bounded c). lia.
Qed.

Lemma byte_byteZ (c : ascii) : utf8.byte (utf8.byteZ c) = c.
Proof.
  unfold utf8.byte. rewrite Z.mod_small by apply byteZ_range.
  unfold utf8.byteZ. rewrite N2Z.id. apply ascii_N_embedding.
Qed.

Lemma byteZ_byte (x : Z) : utf8.byteZ (utf8.byte x) = x mod 256.
Proof.
  unfold utf8.byte, utf8.byteZ.
  assert (H : 0 <= x mod 256 < 256) by (apply Z.mod_pos_bound; lia).
  rewrite N_ascii_embedding by lia. lia.
Qed.

Lemma byte_eq (x : Z) (c : ascii) : x = utf8.byteZ c -> utf8.byte x = c.
Proof. intros ->. apply byte_byteZ. Qed.

Lemma lor_add (a b n : Z) :
  0 <= n -> a mod 2 ^ n = 0 -> 0 <= b < 2 ^ n -> Z.lor a b = a + b.
Proof.
  intros Hn Ha Hb.
  assert (E : a = Z.shiftl (a / 2 ^ n) n).
  { rewrite Z.shiftl_mul_pow2 by assumption.
    rewrite (Z.div_mod a (2 ^ n)) at 1 by (apply Z.pow_nonzero; lia).
    rewrite Ha. ring. }
  rewrite E at 1. rewrite lor_shiftl_add by assumption.
  rewrite Z.shiftl_mul_pow2 in E by assumption. rewrite <- E. reflexivity.
Qed.

(** Turn boolean tests of hypotheses into arithmetic facts. *)
Ltac zb :=
  repeat match goal with
  | H : (_ && _)%bool = true |- _ => apply andb_true_iff in H; destruct H
  | H : (_ || _)%bool = false |- _ => apply orb_false_iff in H; destruct H
  | H : negb _ = true |- _ => apply negb_true_iff in H
  | H : negb _ = false |- _ => apply negb_false_iff in H
  | H : (_ <=? _) = true |- _ => apply Z.leb_le in H
  | H : (_ <=? _) = false |- _ => apply Z.leb_gt in H
  | H : (_ <? _) = true |- _ => apply Z.ltb_lt in H
  | H : (_ <? _) = false |- _ => apply Z.ltb_ge in H
  | H : (_ =? _) = true |- _ => apply Z.eqb_eq in H
  | H : (_ =? _) = false |- _ => apply Z.eqb_neq in H
  end.

Ltac unfold_consts :=
  cbv [utf8.RuneError utf8.RuneSelf utf8.MaxRune utf8.surrogateMin
       utf8.surrogateMax utf8.t2 utf8.t3 utf8.t4 utf8.t5 utf8.rune1Max
       utf8.rune2Max utf8.rune3Max utf8.locb utf8.hicb] in *.

(** Drop from the context the parameters of the program, and what is
    assumed of them, that the goal does not mention. *)
Ltac forget_params :=
  try clear sortSlice_sorted; try clear sortSlice_perm;
  try clear rangeMap_perm; try clear ToUpper_valid; try clear Han_cjk;
  try clear Han_RuneError; try clear ToUpper_hyphen; try clear ToUpper_space;
  try clear ToUpper_Han; try clear sortSlice; try clear rangeMap;
  try clear EqualFold; try clear ToUpper; try clear Han.

(** Arithmetic with [/] and [mod]. *)
Ltac arith := forget_params; Z.div_mod_to_equations; lia.

(** ** The decoder, arithmetically *)

Lemma dec2 (b0 b1 : Z) :
  Z.lor (Z.shiftl (Z.land b0 utf8.mask2) 6) (Z.land b1 utf8.maskx)
  = (b0 mod 32) * 64 + b1 mod 64.
Proof.
  rewrite land_mask2, land_maskx.
  rewrite lor_shiftl_add; [lia | lia | apply Z.mod_pos_bound; lia].
Qed.

Lemma dec3 (b0 b1 b2 : Z) :
  Z.lor (Z.lor (Z.shiftl (Z.land b0 utf8.mask3) 12)
               (Z.shiftl (Z.land b1 utf8.maskx) 6))
        (Z.land b2 utf8.maskx)
  = (b0 mod 16) * 4096 + (b1 mod 64) * 64 + b2 mod 64.
Proof.
  rewrite land_mask3, !land_maskx, !Z.shiftl_mul_pow2 by lia.
  change (2 ^ 12) with 4096. change (2 ^ 6) with 64.
  pose proof (Z.mod_pos_bound b1 64). pose proof (Z.mod_pos_bound b2 64).
  assert (E1 : Z.lor (b0 mod 16 * 4096) (b1 mod 64 * 64)
               = b0 mod 16 * 4096 + b1 mod 64 * 64).
  { apply (lor_add _ _ 12); [lia | | change (2 ^ 12) with 4096; lia].
    apply Z.mod_mul. discriminate. }
  rewrite E1. apply (lor_add _ _ 6); [lia | | change (2 ^ 6) with 64; lia].
  change (2 ^ 6) with 64.
  replace (b0 mod 16 * 4096 + b1 mod 64 * 64)
    with ((b0 mod 16 * 64 + b1 mod 64) * 64) by ring.
  apply Z.mod_mul. discriminate.
Qed.

Lemma dec4 (b0 b1 b2 b3 : Z) :
  Z.lor (Z.lor (Z.lor (Z.shiftl (Z.land b0 utf8.mask4) 18)
                      (Z.shiftl (Z.land b1 utf8.maskx) 12))
               (Z.shiftl (Z.land b2 utf8.maskx) 6))
        (Z.land b3 utf8.maskx)
  = (b0 mod 8) * 262144 + (b1 mod 64) * 4096 + (b2 mod 64) * 64 + b3 mod 64.
Proof.
  rewrite land_mask4, !land_maskx, !Z.shiftl_mul_pow2 by lia.
  change (2 ^ 18) with 262144. change (2 ^ 12) with 4096.
  change (2 ^ 6) with 64.
  pose proof (Z.mod_pos_bound b1 64). pose proof (Z.mod_pos_bound b2 64).
  pose proof (Z.mod_pos_bound b3 64).
  assert (E1 : Z.lor (b0 mod 8 * 262144) (b1 mod 64 * 4096)
               = b0 mod 8 * 262144 + b1 mod 64 * 4096).
  { apply (lor_add _ _ 18); [lia | | change (2 ^ 18) with 262144; lia].
    apply Z.mod_mul. discriminate. }
  rewrite E1.
  assert (E2 : Z.lor (b0 mod 8 * 262144 + b1 mod 64 * 4096) (b2 mod 64 * 64)
               = b0 mod 8 * 262144 + b1 mod 64 * 4096 + b2 mod 64 * 64).
  { apply (lor_add _ _ 12); [lia | | change (2 ^ 12) with 4096; lia].
    change (2 ^ 12) with 4096.
    replace (b0 mod 8 * 262144 + b1 mod 64 * 4096)
      with ((b0 mod 8 * 64 + b1 mod 64) * 4096) by ring.
    apply Z.mod_mul. discriminate. }
  rewrite E2. apply (lor_add _ _ 6); [lia | | change (2 ^ 6) with 64; lia].
  change (2 ^ 6) with 64.
  replace (b0 mod 8 * 262144 + b1 mod 64 * 4096 + b2 mod 64 * 64)
    with ((b0 mod 8 * 4096 + b1 mod 64 * 64 + b2 mod 64) * 64) by ring.
  apply Z.mod_mul. discriminate.
Qed.

(** ** The encoder, arithmetically *)

Lemma land_byte_maskx (x : Z) :
  Z.land (utf8.byteZ (utf8.byte x)) utf8.maskx = x mod 64.
Proof.
  rewrite byteZ_byte, land_maskx. arith.
Qed.

Lemma encoderune_1 (r : Z) :
  0 <= r <= 127 -> utf8.encoderune r = String (utf8.byte r) EmptyString.
Proof.
  intros H. unfold utf8.encoderune, utf8.uint32.
  rewrite Z.mod_small by lia. unfold_consts.
  destruct (r <=? 127) eqn:E; zb; [reflexivity | lia].
Qed.

Lemma encoderune_2 (r : Z) :
  128 <= r <= 2047 ->
  utf8.encoderune r =
    String (utf8.byte (192 + r / 64))
   (String (utf8.byte (128 + r mod 64)) EmptyString).
Proof.
  intros H. unfold utf8.encoderune, utf8.uint32.
  rewrite Z.mod_small by lia. unfold_consts.
  destruct (r <=? 127) eqn:E1; zb; [lia|].
  destruct (r <=? 2047) eqn:E2; zb; [|lia].
  rewrite land_byte_maskx, byteZ_byte, Z.shiftr_div_pow2 by lia.
  change (2 ^ 6) with 64.
  assert (0 <= r / 64 < 32) by (split; [apply Z.div_pos | apply Z.div_lt_upper_bound]; lia).
  rewrite (Z.mod_small (r / 64)) by lia.
  change (Z.lor 192) with (Z.lor utf8.t2).
  change (Z.lor 128) with (Z.lor utf8.tx).
  pose proof (Z.mod_pos_bound r 64).
  rewrite lor_t2, lor_tx by lia. reflexivity.
Qed.

Lemma encoderune_3 (r : Z) :
  2048 <= r <= 65535 -> ~ (55296 <= r <= 57343) ->
  utf8.encoderune r =
    String (utf8.byte (224 + r / 4096))
   (String (utf8.byte (128 + (r / 64) mod 64))
   (String (utf8.byte (128 + r mod 64)) EmptyString)).
Proof.
  intros H Hs. unfold utf8.encoderune, utf8.uint32.
  rewrite Z.mod_small by lia. unfold_consts.
  destruct (r <=? 127) eqn:E1; zb; [lia|].
  destruct (r <=? 2047) eqn:E2; zb; [lia|].
  destruct ((1114111 <? r) || ((55296 <=? r) && (r <=? 57343))) eqn:E3.
  { apply orb_true_iff in E3. destruct E3; zb; lia. }
  destruct (r <=? 65535) eqn:E4; zb; [|lia].
  rewrite !land_byte_maskx, byteZ_byte, !Z.shiftr_div_pow2 by lia.
  change (2 ^ 12) with 4096. change (2 ^ 6) with 64.
  assert (0 <= r / 4096 < 16)
    by (split; [apply Z.div_pos | apply Z.div_lt_upper_bound]; lia).
  rewrite (Z.mod_small (r / 4096)) by lia.
  pose proof (Z.mod_pos_bound r 64). pose proof (Z.mod_pos_bound (r / 64) 64).
  change (Z.lor 224) with (Z.lor utf8.t3).
  change (Z.lor 128) with (Z.lor utf8.tx).
  rewrite lor_t3, !lor_tx by lia. reflexivity.
Qed.

Lemma encoderune_4 (r : Z) :
  65536 <= r <= 1114111 ->
  utf8.encoderune r =
    String (utf8.byte (240 + r / 262144))
   (String (utf8.byte (128 + (r / 4096) mod 64))
   (String (utf8.byte (128 + (r / 64) mod 64))
   (String (utf8.byte (128 + r mod 64)) EmptyString))).
Proof.
  intros H. unfold utf8.encoderune, utf8.uint32.
  rewrite Z.mod_small by lia. unfold_consts.
  destruct (r <=? 127) eqn:E1; zb; [lia|].
  destruct (r <=? 2047) eqn:E2; zb; [lia|].
  destruct ((1114111 <? r) || ((55296 <=? r) && (r <=? 57343))) eqn:E3.
  { apply orb_true_iff in E3. destruct E3; zb; lia. }
  destruct (r <=? 65535) eqn:E4; zb; [lia|].
  rewrite !land_byte_maskx, byteZ_byte, !Z.shiftr_div_pow2 by lia.
  change (2 ^ 18) with 262144. change (2 ^ 12) with 4096.
  change (2 ^ 6) with 64.
  assert (0 <= r / 262144 < 8)
    by (split; [apply Z.div_pos | apply Z.div_lt_upper_bound]; lia).
  rewrite (Z.mod_small (r / 262144)) by lia.
  pose proof (Z.mod_pos_bound r 64). pose proof (Z.mod_pos_bound (r / 64) 64).
  pose proof (Z.mod_pos_bound (r / 4096) 64).
  change (Z.lor 240) with (Z.lor utf8.t4).
  rewrite lor_t4 by lia.
  change (Z.lor 128) with (Z.lor utf8.tx).
  rewrite !lor_tx by lia. reflexivity.
Qed.

(** ** One step of the decoder *)

Lemma append_cons (a : ascii) (s t : string) :
  String.append (String a s) t = String a (String.append s t).
Proof. reflexivity. Qed.

Lemma append_nil (t : string) : String.append EmptyString t = t.
Proof. reflexivity. Qed.

Lemma ValidRune_iff (r : Z) :
  utf8.ValidRune r = true <-> 0 <= r < 55296 \/ 57343 < r <= 1114111.
Proof.
  unfold utf8.ValidRune. unfold_consts.
  rewrite orb_true_iff, !andb_true_iff, !Z.leb_le, !Z.ltb_lt. reflexivity.
Qed.

Ltac step_cases :=
  repeat (match goal with
  | |- context [match ?s with EmptyString => _ | String _ _ => _ end] =>
      destruct s
  | |- context [if ?b then _ else _] => destruct b eqn:?
  | H : context [match ?s with EmptyString => _ | String _ _ => _ end] |- _ =>
      destruct s
  | H : context [if ?b then _ else _] |- _ => destruct b eqn:?
  end; cbn [fst snd Nat.eqb negb orb andb] in * ).

Ltac byte_bounds :=
  repeat match goal with
  | a : ascii |- _ =>
    lazymatch goal with
    | H : 0 <= utf8.byteZ a < 256 |- _ => fail
    | _ => pose proof (byteZ_range a)
    end
  end.

Ltac use_encoderune :=
  first [ rewrite encoderune_1 by arith
        | rewrite encoderune_2 by arith
        | rewrite encoderune_3 by arith
        | rewrite encoderune_4 by arith ].

Lemma rangestep_valid (c0 : ascii) (s1 : string) :
  utf8.validstep (String c0 s1) = true ->
  utf8.ValidRune (fst (utf8.rangestep (String c0 s1))) = true /\
  String c0 s1 =
    String.append (utf8.encoderune (fst (utf8.rangestep (String c0 s1))))
      (utf8.string_drop (snd (utf8.rangestep (String c0 s1))) (String c0 s1)).
Proof.
  unfold utf8.validstep, utf8.rangestep, utf8.decoderune, utf8.iscont.
  intros Hv. step_cases; try discriminate.
  all: byte_bounds; rewrite ?dec2, ?dec3, ?dec4 in *; zb; unfold_consts.
  all: split; [apply ValidRune_iff; arith |].
  all: use_encoderune; rewrite !append_cons, append_nil;
    cbn [utf8.string_drop].
  all: repeat (f_equal; [symmetry; apply byte_eq; arith |]); try reflexivity.
  all: f_equal; symmetry; apply byte_eq; arith.
Qed.

Lemma rangestep_invalid (c0 : ascii) (s1 : string) :
  utf8.validstep (String c0 s1) = false ->
  utf8.rangestep (String c0 s1) = (utf8.RuneError, 1%nat).
Proof.
  unfold utf8.validstep, utf8.rangestep, utf8.decoderune, utf8.iscont.
  intros Hv. step_cases; try discriminate; reflexivity.
Qed.

Lemma ValidRune_RuneError : utf8.ValidRune utf8.RuneError = true.
Proof. reflexivity. Qed.

Lemma rangestep_ValidRune (c0 : ascii) (s1 : string) :
  utf8.ValidRune (fst (utf8.rangestep (String c0 s1))) = true.
Proof.
  destruct (utf8.validstep (String c0 s1)) eqn:Hv.
  - apply rangestep_valid, Hv.
  - rewrite rangestep_invalid by assumption. reflexivity.
Qed.

Lemma rangestep_width (c0 : ascii) (s1 : string) :
  (1 <= snd (utf8.rangestep (String c0 s1)) <= String.length (String c0 s1))%nat.
Proof.
  unfold utf8.rangestep, utf8.decoderune.
  step_cases; cbn [String.length]; lia.
Qed.

Lemma rangestep_encoderune (r : Z) (s : string) :
  utf8.ValidRune r = true ->
  utf8.rangestep (String.append (utf8.encoderune r) s)
    = (r, String.length (utf8.encoderune r))
  /\ utf8.validstep (String.append (utf8.encoderune r) s) = true.
Proof.
  intros Hr. apply ValidRune_iff in Hr.
  assert (C : 0 <= r <= 127 \/ 128 <= r <= 2047 \/
              (2048 <= r <= 65535 /\ ~ (55296 <= r <= 57343)) \/
              65536 <= r <= 1114111) by lia.
  destruct C as [C|[C|[[C C']|C]]].
  - rewrite encoderune_1 by lia. rewrite append_cons, append_nil.
    unfold utf8.rangestep, utf8.validstep.
    rewrite byteZ_byte, Z.mod_small by lia. unfold_consts.
    destruct (r <? 128) eqn:E; zb; [split; reflexivity | lia].
  - rewrite encoderune_2 by lia. rewrite !append_cons, append_nil.
    unfold utf8.rangestep, utf8.validstep, utf8.decoderune, utf8.iscont.
    rewrite dec2, !byteZ_byte. unfold_consts.
    rewrite !(Z.mod_small (_ + _) 256) by arith.
    replace ((192 + r / 64) mod 32 * 64 + (128 + r mod 64) mod 64) with r
      by arith.
    step_cases; zb; try arith; split; reflexivity.
  - rewrite encoderune_3 by lia. rewrite !append_cons, append_nil.
    unfold utf8.rangestep, utf8.validstep, utf8.decoderune, utf8.iscont.
    rewrite dec3, !byteZ_byte. unfold_consts.
    rewrite !(Z.mod_small (_ + _) 256) by arith.
    replace ((224 + r / 4096) mod 16 * 4096 + (128 + (r / 64) mod 64) mod 64 * 64
             + (128 + r mod 64) mod 64) with r by arith.
    step_cases; zb; try arith; split; reflexivity.
  - rewrite encoderune_4 by lia. rewrite !append_cons, append_nil.
    unfold utf8.rangestep, utf8.validstep, utf8.decoderune, utf8.iscont.
    rewrite dec4, !byteZ_byte. unfold_consts.
    rewrite !(Z.mod_small (_ + _) 256) by arith.
    replace ((240 + r / 262144) mod 8 * 262144
             + (128 + (r / 4096) mod 64) mod 64 * 4096
             + (128 + (r / 64) mod 64) mod 64 * 64
             + (128 + r mod 64) mod 64) with r by arith.
    step_cases; zb; try arith; split; reflexivity.
Qed.

(** ** The range loop *)

Lemma string_drop_length (k : nat) (s : string) :
  String.length (utf8.string_drop k s) = (String.length s - k)%nat.
Proof.
  revert s. induction k as [|k IH]; intros [|c s]; cbn; try lia. apply IH.
Qed.

Lemma string_drop_append (e s : string) :
  utf8.string_drop (String.length e) (String.append e s) = s.
Proof. induction e as [|c e IH]; [reflexivity | exact IH]. Qed.

Lemma rangeloop_fuel (n m : nat) (s : string) :
  (String.length s <= n)%nat -> (String.length s <= m)%nat ->
  utf8.rangeloop n s = utf8.rangeloop m s.
Proof.
  revert m s. induction n as [|n IH]; intros m s Hn Hm.
  - destruct s; [destruct m; reflexivity | cbn in Hn; lia].
  - destruct s as [|c0 s1]; [destruct m; reflexivity |].
    destruct m as [|m]; [cbn in Hm; lia |].
    cbn [utf8.rangeloop].
    pose proof (rangestep_width c0 s1) as W.
    destruct (utf8.rangestep (String c0 s1)) as [r w]. cbn [snd] in W.
    f_equal. apply IH; rewrite string_drop_length; lia.
Qed.

Lemma stringtoslicerune_nil : utf8.stringtoslicerune EmptyString = [].
Proof. reflexivity. Qed.

Lemma stringtoslicerune_step (c0 : ascii) (s1 : string) :
  utf8.stringtoslicerune (String c0 s1) =
    fst (utf8.rangestep (String c0 s1))
    :: utf8.stringtoslicerune
         (utf8.string_drop (snd (utf8.rangestep (String c0 s1))) (String c0 s1)).
Proof.
  unfold utf8.stringtoslicerune at 1. cbn [String.length utf8.rangeloop].
  pose proof (rangestep_width c0 s1) as W.
  destruct (utf8.rangestep (String c0 s1)) as [r w]. cbn [fst snd] in *.
  f_equal.
  apply rangeloop_fuel; rewrite ?string_drop_length; cbn [String.length] in *; lia.
Qed.

Lemma validloop_fuel (n m : nat) (s : string) :
  (String.length s <= n)%nat -> (String.length s <= m)%nat ->
  utf8.validloop n s = utf8.validloop m s.
Proof.
  revert m s. induction n as [|n IH]; intros m s Hn Hm.
  - destruct s; [destruct m; reflexivity | cbn in Hn; lia].
  - destruct s as [|c0 s1]; [destruct m; reflexivity |].
    destruct m as [|m]; [cbn in Hm; lia |].
    cbn [utf8.validloop].
    pose proof (rangestep_width c0 s1) as W.
    f_equal. apply IH; rewrite string_drop_length; lia.
Qed.

Lemma ValidString_step (c0 : ascii) (s1 : string) :
  utf8.ValidString (String c0 s1) =
    utf8.validstep (String c0 s1)
    && utf8.ValidString
         (utf8.string_drop (snd (utf8.rangestep (String c0 s1))) (String c0 s1)).
Proof.
  unfold utf8.ValidString at 1. cbn [String.length utf8.validloop].
  pose proof (rangestep_width c0 s1) as W.
  f_equal.
  apply validloop_fuel; rewrite ?string_drop_length; cbn [String.length] in *; lia.
Qed.

(** Induction along the steps of the decoder. *)
Lemma range_ind (P : string -> Prop) :
  P EmptyString ->
  (forall c0 s1,
      P (utf8.string_drop (snd (utf8.rangestep (String c0 s1))) (String c0 s1)) ->
      P (String c0 s1)) ->
  forall s, P s.
Proof.
  intros H0 Hstep s.
  remember (String.length s) as n eqn:En.
  revert s En. induction n as [n IH] using lt_wf_ind. intros [|c0 s1] En.
  - exact H0.
  - apply Hstep. pose proof (rangestep_width c0 s1) as W.
    eapply IH; [|reflexivity]. rewrite string_drop_length. lia.
Qed.

(** Every rune that the loop visits is a Unicode scalar value. *)
Lemma stringtoslicerune_ValidRune (s : string) :
  Forall (fun r => utf8.ValidRune r = true) (utf8.stringtoslicerune s).
Proof.
  induction s as [|c0 s1 IH] using range_ind.
  - constructor.
  - rewrite stringtoslicerune_step. constructor; [|exact IH].
    apply rangestep_ValidRune.
Qed.

Lemma encoderune_cons (r : Z) :
  exists c e, utf8.encoderune r = String c e.
Proof.
  unfold utf8.encoderune. step_cases; eauto.
Qed.

(** Decoding the encoding of a scalar value gives it back. *)
Lemma stringtoslicerune_encoderune (r : Z) (s : string) :
  utf8.ValidRune r = true ->
  utf8.stringtoslicerune (String.append (utf8.encoderune r) s)
    = r :: utf8.stringtoslicerune s.
Proof.
  intros Hr. destruct (rangestep_encoderune r s Hr) as [E _].
  destruct (encoderune_cons r) as (c & e & Ee).
  rewrite Ee in *. rewrite append_cons in *.
  rewrite stringtoslicerune_step, E. cbn [fst snd].
  rewrite <- append_cons, string_drop_append. reflexivity.
Qed.

Lemma stringtoslicerune_slicerunetostring (a : list Z) :
  Forall (fun r => utf8.ValidRune r = true) a ->
  utf8.stringtoslicerune (utf8.slicerunetostring a) = a.
Proof.
  induction 1 as [|r a Hr _ IH]; [reflexivity |].
  cbn [utf8.slicerunetostring].
  rewrite stringtoslicerune_encoderune by assumption. now rewrite IH.
Qed.

(** Encoding the runes of a valid string gives it back. *)
Lemma slicerunetostring_stringtoslicerune (s : string) :
  utf8.ValidString s = true ->
  utf8.slicerunetostring (utf8.stringtoslicerune s) = s.
Proof.
  induction s as [|c0 s1 IH] using range_ind; [reflexivity |].
  rewrite ValidString_step. intros [Hv Hrest]%andb_true_iff.
  rewrite stringtoslicerune_step. cbn [utf8.slicerunetostring].
  rewrite IH by assumption. symmetry. apply rangestep_valid, Hv.
Qed.

Lemma ValidString_encoderune (r : Z) (s : string) :
  utf8.ValidRune r = true ->
  utf8.ValidString (String.append (utf8.encoderune r) s) = utf8.ValidString s.
Proof.
  intros Hr. destruct (rangestep_encoderune r s Hr) as [E V].
  destruct (encoderune_cons r) as (c & e & Ee).
  rewrite Ee in *. rewrite append_cons in *.
  rewrite ValidString_step, V, E. cbn [fst snd andb].
  rewrite <- append_cons, string_drop_append. reflexivity.
Qed.

Lemma ValidString_slicerunetostring (a : list Z) :
  Forall (fun r => utf8.ValidRune r = true) a ->
  utf8.ValidString (utf8.slicerunetostring a) = true.
Proof.
  induction 1 as [|r a Hr _ IH]; [reflexivity |].
  cbn [utf8.slicerunetostring]. now rewrite ValidString_encoderune.
Qed.

(** ** Script Filter *)

Lemma isChineseRunes_Forall (rs : list Z) :
  isChineseRunes rs = true <->
  Forall (fun r => Han r = true \/ r = 32 \/ r = 45) rs.
Proof.
  induction rs as [|r rs IH]; cbn [isChineseRunes].
  - split; [constructor | reflexivity].
  - rewrite Forall_cons_iff, <- IH.
    destruct (Han r) eqn:EH, (r =? 32) eqn:E1, (r =? 45) eqn:E2;
      cbn [negb andb]; zb; forget_params;
      intuition (try discriminate; lia).
Qed.

(** C7: [isChineseText s] is true exactly when every character that
    [range s] visits is a Han character, a space or a hyphen; it is true
    on the empty string and false as soon as one character is outside
    that set. *)
Theorem isChineseText_spec (s : string) :
  (isChineseText s = true <->
   forall r, In r (utf8.stringtoslicerune s) ->
             Han r = true \/ r = 32 \/ r = 45)
  /\ isChineseText EmptyString = true
  /\ ((exists r, In r (utf8.stringtoslicerune s)
                 /\ Han r = false /\ r <> 32 /\ r <> 45) ->
      isChineseText s = false).
Proof.
  assert (E : isChineseText s = true <->
              forall r, In r (utf8.stringtoslicerune s) ->
                        Han r = true \/ r = 32 \/ r = 45).
  { unfold isChineseText.
    rewrite isChineseRunes_Forall, List.Forall_forall. reflexivity. }
  split; [exact E | split; [reflexivity |]].
  intros (r & Hin & HH & H1 & H2).
  destruct (isChineseText s) eqn:Ec; [| reflexivity].
  destruct (proj1 E eq_refl r Hin) as [H|[H|H]]; congruence.
Qed.

(** ** Character Extractor *)

Lemma extract_fold (rs : list Z) (acc : list string) :
  fold_left
    (fun characters r =>
       if Han r then characters ++ [utf8.intstring r] else characters)
    rs acc
  = acc ++ map utf8.intstring (List.filter Han rs).
Proof.
  revert acc. induction rs as [|r rs IH]; intros acc; cbn [fold_left List.filter].
  - now rewrite app_nil_r.
  - rewrite IH. destruct (Han r); [| reflexivity].
    cbn [map]. now rewrite <- app_assoc.
Qed.

Lemma append_nil_r (s : string) : String.append s EmptyString = s.
Proof. induction s as [|c s IH]; [reflexivity |]. rewrite append_cons. now f_equal. Qed.

Lemma stringtoslicerune_intstring (r : Z) :
  utf8.ValidRune r = true -> utf8.stringtoslicerune (utf8.intstring r) = [r].
Proof.
  intros Hr. unfold utf8.intstring.
  rewrite <- (append_nil_r (utf8.encoderune r)).
  now rewrite stringtoslicerune_encoderune.
Qed.

(** C8: [extractChineseCharacters s] holds one string per Han character
    of [s], in the order of [s]; its length is the number of Han
    characters of [s]; each of its elements is the encoding of one Han
    character of [s] and decodes to that single character, so no element
    is empty and none is a space, a hyphen or any other character outside
    the Han script. *)
Theorem extractChineseCharacters_spec (s : string) :
  extractChineseCharacters s
    = map utf8.intstring (List.filter Han (utf8.stringtoslicerune s))
  /\ length (extractChineseCharacters s)
     = length (List.filter Han (utf8.stringtoslicerune s))
  /\ (forall c, In c (extractChineseCharacters s) ->
        exists r, In r (utf8.stringtoslicerune s) /\ Han r = true
                  /\ c = utf8.intstring r
                  /\ utf8.stringtoslicerune c = [r]
                  /\ c <> EmptyString).
Proof.
  assert (E : extractChineseCharacters s
              = map utf8.intstring (List.filter Han (utf8.stringtoslicerune s))).
  { unfold extractChineseCharacters. now rewrite extract_fold. }
  split; [exact E | split].
  - rewrite E. apply length_map.
  - intros c Hc. rewrite E in Hc. apply in_map_iff in Hc.
    destruct Hc as (r & <- & Hr). apply List.filter_In in Hr.
    destruct Hr as [Hin HH].
    assert (Hv : utf8.ValidRune r = true).
    { pose proof (stringtoslicerune_ValidRune s) as F.
      rewrite List.Forall_forall in F. now apply F. }
    exists r. repeat split; try assumption.
    + now apply stringtoslicerune_intstring.
    + unfold utf8.intstring. destruct (encoderune_cons r) as (a & e & ->).
      discriminate.
Qed.

(** ** Case normalization *)


Lemma capitalizePhrase_fixed (s : string) :
  utf8.ValidString s = true ->
  (forall r rest, utf8.stringtoslicerune s = r :: rest -> ToUpper r = r) ->
  capitalizePhrase s = s.
Proof.
  intros Hv Hfix. unfold capitalizePhrase.
  destruct (utf8.stringtoslicerune s) as [|r rest] eqn:E.
  - rewrite <- E. now apply slicerunetostring_stringtoslicerune.
  - rewrite (Hfix r rest eq_refl), <- E.
    now apply slicerunetostring_stringtoslicerune.
Qed.

Lemma isChineseText_ValidString (s : string) :
  isChineseText s = true -> utf8.ValidString s = true.
Proof using Han_RuneError.
  unfold isChineseText.
  induction s as [|c0 s1 IH] using range_ind; [reflexivity |].
  rewrite stringtoslicerune_step, ValidString_step, isChineseRunes_Forall.
  intros [Hr Hrest]%Forall_cons_iff.
  apply isChineseRunes_Forall in Hrest. rewrite (IH Hrest), andb_true_r.
  destruct (utf8.validstep (String c0 s1)) eqn:Hv; [reflexivity |].
  rewrite rangestep_invalid in Hr by assumption. cbn [fst] in Hr.
  destruct Hr as [Hr|[Hr|Hr]]; [congruence | discriminate | discriminate].
Qed.

(** C9 (amended): on a string that is valid UTF-8 and is empty or starts
    with a Han character, and on every string that passes the Script
    Filter, [capitalizePhrase] is the identity; so the ranker's
    normalization leaves every list of such items as it is. *)
Theorem capitalizePhrase_chinese (s : string) (items : list string) :
  (utf8.ValidString s = true ->
   s = EmptyString
   \/ (exists r rest, utf8.stringtoslicerune s = r :: rest /\ Han r = true) ->
   capitalizePhrase s = s)
  /\ (isChineseText s = true -> capitalizePhrase s = s)
  /\ (Forall (fun item => isChineseText item = true) items ->
      map capitalizePhrase items = items).
Proof using Han_RuneError ToUpper_Han ToUpper_hyphen ToUpper_space.
  assert (Hc : forall t, isChineseText t = true -> capitalizePhrase t = t).
  { intros t Ht. apply capitalizePhrase_fixed.
    - now apply isChineseText_ValidString.
    - intros r rest E. unfold isChineseText in Ht. rewrite E in Ht.
      apply isChineseRunes_Forall, Forall_cons_iff, proj1 in Ht.
      destruct Ht as [Hr|[->| ->]];
        [now apply ToUpper_Han | apply ToUpper_space | apply ToUpper_hyphen]. }
  split; [| split].
  - intros Hv [-> | (r & rest & E & HH)]; [reflexivity |].
    apply capitalizePhrase_fixed; [assumption |].
    intros r' rest' E'. rewrite E in E'. injection E' as <- <-.
    now apply ToUpper_Han.
  - apply Hc.
  - induction 1 as [|item items Hi _ IH]; [reflexivity |].
    cbn [map]. now rewrite Hc, IH.
Qed.

(** ** Phrase Chunker *)


(** The flush after the loop. *)
Lemma chunkPhrases_flush (group : string -> bool) (tokens : list Token) :
  chunkPhrases group tokens =
    (fold_left (chunkStep group) tokens ([], [])).1
    ++ match (fold_left (chunkStep group) tokens ([], [])).2 with
       | [] => []
       | cur => [Join cur " "]
       end.
Proof.
  unfold chunkPhrases.
  destruct (fold_left (chunkStep group) tokens ([], [])) as [ph [|x cur]];
    cbn [fst snd length Nat.ltb Nat.leb]; [now rewrite app_nil_r | reflexivity].
Qed.

(** Phrases that are already emitted are never touched again. *)
Lemma chunkStep_phrases (group : string -> bool) (t : Token)
    (p ph cur : list string) :
  chunkStep group (p ++ ph, cur) t =
    (p ++ (chunkStep group (ph, cur) t).1, (chunkStep group (ph, cur) t).2).
Proof.
  unfold chunkStep.
  destruct (isChineseText (Text t)); [| reflexivity].
  destruct (group (Tag t)); [reflexivity |].
  destruct (0 <? length cur)%nat; [| reflexivity].
  cbn [fst snd]. now rewrite app_assoc.
Qed.

Lemma chunk_fold_phrases (group : string -> bool) (tokens : list Token)
    (p ph cur : list string) :
  fold_left (chunkStep group) tokens (p ++ ph, cur) =
    (p ++ (fold_left (chunkStep group) tokens (ph, cur)).1,
     (fold_left (chunkStep group) tokens (ph, cur)).2).
Proof.
  revert ph cur. induction tokens as [|t tokens IH]; intros ph cur;
    [reflexivity |].
  cbn [fold_left]. rewrite chunkStep_phrases.
  destruct (chunkStep group (ph, cur) t) as [ph' cur']. apply IH.
Qed.

Lemma chunk_fold_skip (group : string -> bool) (t : Token)
    (st : list string * list string) :
  isChineseText (Text t) = false -> chunkStep group st t = st.
Proof. intros H. unfold chunkStep. destruct st. now rewrite H. Qed.

Lemma chunk_fold_good (group : string -> bool) (tokens : list Token)
    (ph cur : list string) :
  Forall (fun t => isChineseText (Text t) = true /\ group (Tag t) = true)
         tokens ->
  fold_left (chunkStep group) tokens (ph, cur) = (ph, cur ++ map Text tokens).
Proof.
  intros H. revert cur. induction H as [|t tokens [Hc Hg] _ IH]; intros cur.
  - cbn. now rewrite app_nil_r.
  - cbn [fold_left map].
    replace (chunkStep group (ph, cur) t) with (ph, cur ++ [Text t])
      by (unfold chunkStep; now rewrite Hc, Hg).
    rewrite IH. now rewrite <- app_assoc.
Qed.

(** A token of the script that is outside the group closes the pending
    phrase: the stream splits there. *)
Lemma chunkPhrases_boundary (group : string -> bool) (l1 l2 : list Token)
    (t : Token) :
  isChineseText (Text t) = true -> group (Tag t) = false ->
  chunkPhrases group (l1 ++ t :: l2)
  = chunkPhrases group l1 ++ chunkPhrases group l2.
Proof.
  intros Hc Hg.
  rewrite (chunkPhrases_flush group (l1 ++ t :: l2)), fold_left_app.
  cbn [fold_left]. rewrite (chunkPhrases_flush group l1).
  destruct (fold_left (chunkStep group) l1 ([], [])) as [ph cur].
  cbn [fst snd].
  replace (chunkStep group (ph, cur) t)
    with (ph ++ match cur with [] => [] | _ => [Join cur " "] end ++ [],
          @nil string)
    by (unfold chunkStep; rewrite Hc, Hg; destruct cur;
        cbn [length Nat.ltb Nat.leb]; rewrite !app_nil_r; reflexivity).
  rewrite app_assoc, chunk_fold_phrases. cbn [fst snd].
  rewrite (chunkPhrases_flush group l2).
  destruct cur; now rewrite <- !app_assoc.
Qed.

(** C5: when the loop ends with a non-empty buffer, the buffer is
    emitted as the last phrase, joined by single spaces; a stream of
    tokens that all continue the phrase yields that one phrase; a
    boundary token at the end of the stream changes nothing; and the two
    tokens "红", "花" tagged in the noun group yield exactly ["红 花"]. *)
Theorem chunkPhrases_trailing_flush (group : string -> bool)
    (tokens : list Token) :
  (forall ph cur,
      fold_left (chunkStep group) tokens ([], []) = (ph, cur) ->
      cur <> [] -> chunkPhrases group tokens = ph ++ [Join cur " "])
  /\ (tokens <> [] ->
      Forall (fun t => isChineseText (Text t) = true /\ group (Tag t) = true)
             tokens ->
      chunkPhrases group tokens = [Join (map Text tokens) " "])
  /\ (forall b, isChineseText (Text b) = true -> group (Tag b) = false ->
      chunkPhrases group (tokens ++ [b]) = chunkPhrases group tokens)
  /\ (forall tag1 tag2, nounGroup tag1 = true -> nounGroup tag2 = true ->
      extractNounPhrases
        [ {| Tag := tag1; Text := "红" |}; {| Tag := tag2; Text := "花" |} ]
      = ["红 花"]%string).
Proof using Han_cjk.
  split; [| split; [| split]].
  - intros ph cur E Hne. rewrite chunkPhrases_flush, E. cbn [fst snd].
    destruct cur; [contradiction | reflexivity].
  - intros Hne Hall. rewrite chunkPhrases_flush, chunk_fold_good by assumption.
    cbn [fst snd app]. destruct tokens; [contradiction | reflexivity].
  - intros b Hc Hg. rewrite chunkPhrases_boundary by assumption.
    apply app_nil_r.
  - intros tag1 tag2 H1 H2. unfold extractNounPhrases.
    rewrite chunkPhrases_flush, chunk_fold_good; [reflexivity |].
    assert (Hh : isChineseText "红" = true /\ isChineseText "花" = true).
    { assert (E1 : utf8.stringtoslicerune "红" = [0x7EA2])
        by (vm_compute; reflexivity).
      assert (E2 : utf8.stringtoslicerune "花" = [0x82B1])
        by (vm_compute; reflexivity).
      unfold isChineseText. rewrite E1, E2.
      split; apply isChineseRunes_Forall;
        (constructor; [left; apply Han_cjk; lia | constructor]). }
    destruct Hh. repeat constructor; assumption.
Qed.

(** Every phrase, emitted or pending, is made of tokens of the stream
    that pass the Script Filter and carry a tag of the group. *)
Lemma chunk_fold_invariant (group : string -> bool) (tokens l : list Token)
    (ph cur : list string) :
  (forall t, In t l -> In t tokens) ->
  (forall p, In p ph ->
     exists ts, ts <> [] /\ p = Join (map Text ts) " "
       /\ Forall (fun t => In t tokens /\ isChineseText (Text t) = true
                           /\ group (Tag t) = true) ts) ->
  (exists cs, cur = map Text cs
       /\ Forall (fun t => In t tokens /\ isChineseText (Text t) = true
                           /\ group (Tag t) = true) cs) ->
  (forall p, In p (fold_left (chunkStep group) l (ph, cur)).1 ->
     exists ts, ts <> [] /\ p = Join (map Text ts) " "
       /\ Forall (fun t => In t tokens /\ isChineseText (Text t) = true
                           /\ group (Tag t) = true) ts)
  /\ (exists cs, (fold_left (chunkStep group) l (ph, cur)).2 = map Text cs
       /\ Forall (fun t => In t tokens /\ isChineseText (Text t) = true
                           /\ group (Tag t) = true) cs).
Proof.
  revert ph cur. induction l as [|t l IH]; intros ph cur Hsub Hph Hcur.
  - split; assumption.
  - cbn [fold_left]. unfold chunkStep at 2 4.
    assert (Hsub' : forall t', In t' l -> In t' tokens)
      by (intros; apply Hsub; now right).
    destruct (isChineseText (Text t)) eqn:Hc; [| now apply IH].
    destruct (group (Tag t)) eqn:Hg.
    + apply IH; try assumption.
      destruct Hcur as (cs & -> & Hcs). exists (cs ++ [t]). split.
      * now rewrite map_app.
      * apply Forall_app. split; [assumption |].
        constructor; [| constructor]. repeat split; try assumption.
        apply Hsub. now left.
    + destruct cur as [|x cur]; cbn [length Nat.ltb Nat.leb].
      * now apply IH.
      * apply IH; try assumption.
        -- intros p [Hp | [<- | []]]%in_app_iff.
           ++ now apply Hph.
           ++ destruct Hcur as (cs & E & Hcs). exists cs.
              repeat split; try assumption.
              ** intros ->. discriminate.
              ** now rewrite E.
        -- exists []. split; [reflexivity | constructor].
Qed.

(** C1 (amended): a token that fails the Script Filter is skipped and
    leaves the pending buffer as it is, so the phrase goes on across it;
    a token of the script whose tag is outside the group is the
    boundary: it closes the pending phrase and no phrase spans it; and
    every emitted phrase joins at least one token, all of them tokens of
    the stream that pass the filter and carry a tag of the group. *)
Theorem chunkPhrases_boundaries (group : string -> bool)
    (l1 l2 : list Token) (t : Token) :
  (isChineseText (Text t) = false ->
   chunkPhrases group (l1 ++ t :: l2) = chunkPhrases group (l1 ++ l2))
  /\ (isChineseText (Text t) = true -> group (Tag t) = false ->
      chunkPhrases group (l1 ++ t :: l2)
      = chunkPhrases group l1 ++ chunkPhrases group l2)
  /\ (forall p, In p (chunkPhrases group l1) ->
      exists ts, ts <> [] /\ p = Join (map Text ts) " "
        /\ Forall (fun t => In t l1 /\ isChineseText (Text t) = true
                            /\ group (Tag t) = true) ts).
Proof.
  split; [| split].
  - intros Hc. unfold chunkPhrases. rewrite !fold_left_app. cbn [fold_left].
    now rewrite chunk_fold_skip.
  - apply chunkPhrases_boundary.
  - intros p. rewrite chunkPhrases_flush.
    destruct (chunk_fold_invariant group l1 l1 [] []) as [Hph Hcur].
    + auto.
    + intros q [].
    + exists []. split; [reflexivity | constructor].
    + intros [Hp | Hp]%in_app_iff; [now apply Hph |].
      destruct Hcur as (cs & E & Hcs).
      destruct (fold_left (chunkStep group) l1 ([], [])).2 as [|x cur];
        [destruct Hp |].
      destruct Hp as [<- | []]. exists cs. repeat split; try assumption.
      * intros ->. discriminate.
      * now rewrite E.
Qed.

(** ** Classifier *)

Lemma appendTo_lookup (results : gmap string (list string))
    (k k' : string) (xs : list string) :
  appendTo results k xs !!! k' =
    if String.eqb k' k then results !!! k' ++ xs else results !!! k'.
Proof.
  unfold appendTo. rewrite lookup_total_insert.
  destruct (String.eqb_spec k' k) as [->|Hne].
  - now rewrite decide_True.
  - now rewrite decide_False by congruence.
Qed.

(** What the loop has appended to [results[k]] when every iteration
    appends [f tok]. *)
Lemma categorize_fold_bucket (idioms slang : list string) (k : string)
    (f : Token -> list string) :
  (forall results tok,
      categorizeStep idioms slang results tok !!! k = results !!! k ++ f tok) ->
  forall tokens results,
    fold_left (categorizeStep idioms slang) tokens results !!! k
    = results !!! k ++ concat (map f tokens).
Proof.
  intros Hstep. induction tokens as [|tok tokens IH]; intros results.
  - cbn. now rewrite app_nil_r.
  - cbn [fold_left map concat]. now rewrite IH, Hstep, <- app_assoc.
Qed.

Lemma concat_map_filter (p : Token -> bool) (tokens : list Token) :
  concat (map (fun t => if p t then [Text t] else []) tokens)
  = map Text (List.filter p tokens).
Proof.
  induction tokens as [|t tokens IH]; [reflexivity |].
  cbn [map concat List.filter]. rewrite IH. now destruct (p t).
Qed.

(** The slice of a primary category after the token loop. *)
Lemma categorize_fold_primary (idioms slang : list string) (c : string)
    (tokens : list Token) :
  In c [ "ChineseNouns"; "ChineseVerbs"; "ChineseAdjectives";
         "ChineseAdverbs"; "ChineseOtherExpressions" ]%string ->
  fold_left (categorizeStep idioms slang) tokens ∅ !!! c
  = map Text
      (List.filter
         (fun t => isChineseText (Text t)
                   && String.eqb c (primaryCategory (Tag t))) tokens).
Proof.
  intros Hc. rewrite <- concat_map_filter.
  rewrite (categorize_fold_bucket idioms slang c
             (fun t => if isChineseText (Text t)
                          && String.eqb c (primaryCategory (Tag t))
                       then [Text t] else [])).
  - now rewrite lookup_total_empty.
  - intros results tok. unfold categorizeStep.
    destruct (isChineseText (Text tok)); cbn [andb]; [| now rewrite app_nil_r].
    assert (E1 : String.eqb c "ChineseCharacters" = false)
      by (cbn in Hc; intuition (subst; reflexivity)).
    assert (E2 : String.eqb c "ChineseIdioms" = false)
      by (cbn in Hc; intuition (subst; reflexivity)).
    assert (E3 : String.eqb c "ChineseSlang" = false)
      by (cbn in Hc; intuition (subst; reflexivity)).
    destruct (matchesPhraseList (Text tok) idioms),
             (matchesPhraseList (Text tok) slang);
      rewrite !appendTo_lookup, ?E1, ?E2, ?E3;
      destruct (String.eqb c (primaryCategory (Tag tok)));
      now rewrite ?app_nil_r.
Qed.

(** The slice of a secondary category after the token loop. *)
Lemma categorize_fold_idioms (idioms slang : list string)
    (tokens : list Token) :
  fold_left (categorizeStep idioms slang) tokens ∅ !!! "ChineseIdioms"
  = map Text
      (List.filter
         (fun t => isChineseText (Text t)
                   && matchesPhraseList (Text t) idioms) tokens).
Proof.
  rewrite <- concat_map_filter.
  rewrite (categorize_fold_bucket idioms slang "ChineseIdioms"
             (fun t => if isChineseText (Text t)
                          && matchesPhraseList (Text t) idioms
                       then [Text t] else [])).
  - now rewrite lookup_total_empty.
  - intros results tok. unfold categorizeStep.
    destruct (isChineseText (Text tok)); cbn [andb]; [| now rewrite app_nil_r].
    assert (E : String.eqb "ChineseIdioms" (primaryCategory (Tag tok)) = false).
    { unfold primaryCategory.
      repeat match goal with |- context [if ?b then _ else _] => destruct b end;
        reflexivity. }
    destruct (matchesPhraseList (Text tok) idioms),
             (matchesPhraseList (Text tok) slang);
      rewrite !appendTo_lookup, ?E; cbn [String.eqb Ascii.eqb Bool.eqb];
      now rewrite ?app_nil_r.
Qed.

Lemma categorize_fold_slang (idioms slang : list string)
    (tokens : list Token) :
  fold_left (categorizeStep idioms slang) tokens ∅ !!! "ChineseSlang"
  = map Text
      (List.filter
         (fun t => isChineseText (Text t)
                   && matchesPhraseList (Text t) slang) tokens).
Proof.
  rewrite <- concat_map_filter.
  rewrite (categorize_fold_bucket idioms slang "ChineseSlang"
             (fun t => if isChineseText (Text t)
                          && matchesPhraseList (Text t) slang
                       then [Text t] else [])).
  - now rewrite lookup_total_empty.
  - intros results tok. unfold categorizeStep.
    destruct (isChineseText (Text tok)); cbn [andb]; [| now rewrite app_nil_r].
    assert (E : String.eqb "ChineseSlang" (primaryCategory (Tag tok)) = false).
    { unfold primaryCategory.
      repeat match goal with |- context [if ?b then _ else _] => destruct b end;
        reflexivity. }
    destruct (matchesPhraseList (Text tok) idioms),
             (matchesPhraseList (Text tok) slang);
      rewrite !appendTo_lookup, ?E; cbn [String.eqb Ascii.eqb Bool.eqb];
      now rewrite ?app_nil_r.
Qed.

(** The two phrase categories are stored under keys of their own. *)
Lemma categorize_lookup (idioms slang : list string) (tokens : list Token)
    (k : string) :
  k <> "ChineseNounPhrases"%string -> k <> "ChineseVerbPhrases"%string ->
  categorize idioms slang tokens !!! k
  = fold_left (categorizeStep idioms slang) tokens ∅ !!! k.
Proof.
  intros H1 H2. unfold categorize.
  now rewrite !lookup_total_insert_ne by congruence.
Qed.

Lemma primaryCategory_tag (tag : string) :
  String.eqb "ChineseNouns" (primaryCategory tag) = String.eqb tag "NN"
  /\ String.eqb "ChineseVerbs" (primaryCategory tag) = String.eqb tag "VB"
  /\ String.eqb "ChineseAdjectives" (primaryCategory tag) = String.eqb tag "JJ"
  /\ String.eqb "ChineseAdverbs" (primaryCategory tag) = String.eqb tag "RB"
  /\ String.eqb "ChineseOtherExpressions" (primaryCategory tag)
     = negb (String.eqb tag "NN" || String.eqb tag "VB"
             || String.eqb tag "JJ" || String.eqb tag "RB").
Proof.
  unfold primaryCategory.
  destruct (String.eqb_spec tag "NN") as [->|]; [repeat split |].
  destruct (String.eqb_spec tag "VB") as [->|]; [repeat split |].
  destruct (String.eqb_spec tag "JJ") as [->|]; [repeat split |].
  destruct (String.eqb_spec tag "RB") as [->|]; repeat split.
Qed.

Lemma primary_filters_partition (p : Token -> bool) (tokens : list Token) :
  map Text (List.filter (fun t => p t && String.eqb (Tag t) "NN") tokens)
  ++ map Text (List.filter (fun t => p t && String.eqb (Tag t) "VB") tokens)
  ++ map Text (List.filter (fun t => p t && String.eqb (Tag t) "JJ") tokens)
  ++ map Text (List.filter (fun t => p t && String.eqb (Tag t) "RB") tokens)
  ++ map Text
       (List.filter
          (fun t => p t && negb (String.eqb (Tag t) "NN"
                                 || String.eqb (Tag t) "VB"
                                 || String.eqb (Tag t) "JJ"
                                 || String.eqb (Tag t) "RB")) tokens)
  ≡ₚ map Text (List.filter p tokens).
Proof.
  induction tokens as [|t tokens IH]; [reflexivity |].
  cbn [List.filter]. destruct (p t); cbn [andb]; [| exact IH].
  destruct (String.eqb (Tag t) "NN") eqn:E1, (String.eqb (Tag t) "VB") eqn:E2,
           (String.eqb (Tag t) "JJ") eqn:E3, (String.eqb (Tag t) "RB") eqn:E4;
    rewrite ?String.eqb_eq in *;
    try (exfalso; congruence);
    cbn [orb negb map app];
    rewrite <- ?Permutation_middle; now constructor.
Qed.

(** C2: after the classifier has run, each of the five primary slices
    holds, in stream order and once per occurrence, the texts of the
    tokens that pass the Script Filter and carry its tag: NN for Nouns,
    VB for Verbs, JJ for Adjectives, RB for Adverbs, and any other tag
    (DT and MD among them) for OtherExpressions; together the five
    slices hold every token that passes the filter exactly once. *)
Theorem primary_classification (idioms slang : list string)
    (tokens : list Token) :
  let results := categorize idioms slang tokens in
  let chinese := fun t => isChineseText (Text t) in
  results !!! "ChineseNouns"
    = map Text (List.filter
                  (fun t => chinese t && String.eqb (Tag t) "NN") tokens)
  /\ results !!! "ChineseVerbs"
    = map Text (List.filter
                  (fun t => chinese t && String.eqb (Tag t) "VB") tokens)
  /\ results !!! "ChineseAdjectives"
    = map Text (List.filter
                  (fun t => chinese t && String.eqb (Tag t) "JJ") tokens)
  /\ results !!! "ChineseAdverbs"
    = map Text (List.filter
                  (fun t => chinese t && String.eqb (Tag t) "RB") tokens)
  /\ results !!! "ChineseOtherExpressions"
    = map Text (List.filter
                  (fun t => chinese t
                            && negb (String.eqb (Tag t) "NN"
                                     || String.eqb (Tag t) "VB"
                                     || String.eqb (Tag t) "JJ"
                                     || String.eqb (Tag t) "RB")) tokens)
  /\ results !!! "ChineseNouns" ++ results !!! "ChineseVerbs"
     ++ results !!! "ChineseAdjectives" ++ results !!! "ChineseAdverbs"
     ++ results !!! "ChineseOtherExpressions"
     ≡ₚ map Text (List.filter chinese tokens)
  /\ primaryCategory "DT" = "ChineseOtherExpressions"%string
  /\ primaryCategory "MD" = "ChineseOtherExpressions"%string.
Proof.
  intros results chinese.
  assert (B : forall c (q : string -> bool),
             In c [ "ChineseNouns"; "ChineseVerbs"; "ChineseAdjectives";
                    "ChineseAdverbs"; "ChineseOtherExpressions" ]%string ->
             (forall tag, String.eqb c (primaryCategory tag) = q tag) ->
             results !!! c
             = map Text (List.filter (fun t => chinese t && q (Tag t)) tokens)).
  { intros c q Hc Hq. unfold results.
    rewrite categorize_lookup
      by (intros ->; cbn in Hc; intuition discriminate).
    rewrite categorize_fold_primary by assumption.
    f_equal. apply List.filter_ext. intros t. now rewrite Hq. }
  assert (N := B "ChineseNouns"%string (fun tag => String.eqb tag "NN")).
  assert (V := B "ChineseVerbs"%string (fun tag => String.eqb tag "VB")).
  assert (J := B "ChineseAdjectives"%string (fun tag => String.eqb tag "JJ")).
  assert (R := B "ChineseAdverbs"%string (fun tag => String.eqb tag "RB")).
  assert (O := B "ChineseOtherExpressions"%string
                 (fun tag => negb (String.eqb tag "NN" || String.eqb tag "VB"
                                   || String.eqb tag "JJ"
                                   || String.eqb tag "RB"))).
  cbv beta in N, V, J, R, O.
  rewrite N, V, J, R, O;
    try (cbn; tauto); try (intros tag; apply primaryCategory_tag).
  repeat split. apply primary_filters_partition.
Qed.

(** C6: the Idioms slice holds, in stream order, the texts of exactly
    the tokens that pass the Script Filter and whose whole text
    [strings.EqualFold] equates with some entry of the idiom list; the
    Slang slice likewise with the slang list.  The tag of the token
    plays no part in it, and the lists play no part in the primary
    slices. *)
Theorem secondary_classification (idioms slang : list string)
    (tokens : list Token) :
  categorize idioms slang tokens !!! "ChineseIdioms"
    = map Text (List.filter
                  (fun t => isChineseText (Text t)
                            && matchesPhraseList (Text t) idioms) tokens)
  /\ categorize idioms slang tokens !!! "ChineseSlang"
    = map Text (List.filter
                  (fun t => isChineseText (Text t)
                            && matchesPhraseList (Text t) slang) tokens)
  /\ (forall phrase list,
        matchesPhraseList phrase list = true
        <-> exists item, In item list /\ EqualFold item phrase = true)
  /\ (forall tokens',
        map Text tokens' = map Text tokens ->
        categorize idioms slang tokens' !!! "ChineseIdioms"
          = categorize idioms slang tokens !!! "ChineseIdioms"
        /\ categorize idioms slang tokens' !!! "ChineseSlang"
          = categorize idioms slang tokens !!! "ChineseSlang")
  /\ (forall idioms' slang' c,
        In c [ "ChineseNouns"; "ChineseVerbs"; "ChineseAdjectives";
               "ChineseAdverbs"; "ChineseOtherExpressions" ]%string ->
        categorize idioms' slang' tokens !!! c
          = categorize idioms slang tokens !!! c).
Proof.
  assert (I : forall toks,
             categorize idioms slang toks !!! "ChineseIdioms"
             = map Text (List.filter
                  (fun t => isChineseText (Text t)
                            && matchesPhraseList (Text t) idioms) toks)).
  { intros toks. rewrite categorize_lookup by discriminate.
    apply categorize_fold_idioms. }
  assert (S : forall toks,
             categorize idioms slang toks !!! "ChineseSlang"
             = map Text (List.filter
                  (fun t => isChineseText (Text t)
                            && matchesPhraseList (Text t) slang) toks)).
  { intros toks. rewrite categorize_lookup by discriminate.
    apply categorize_fold_slang. }
  assert (T : forall (q : string -> bool) toks,
             map Text (List.filter (fun t => q (Text t)) toks)
             = List.filter q (map Text toks)).
  { intros q toks. induction toks as [|t toks IH]; [reflexivity |].
    cbn [List.filter map]. destruct (q (Text t)); cbn [map]; now rewrite IH. }
  split; [apply I | split; [apply S | split; [| split]]].
  - intros phrase list. induction list as [|item list IH];
      cbn [matchesPhraseList].
    + split; [discriminate | intros (item & [] & _)].
    + destruct (EqualFold item phrase) eqn:E.
      * split; [| reflexivity]. intros _. exists item. split; [now left | exact E].
      * rewrite IH. split.
        -- intros (item' & Hin & E'). exists item'. split; [now right | exact E'].
        -- intros (item' & [<- | Hin] & E'); [congruence |].
           exists item'. now split.
  - intros tokens' E. rewrite !I, !S.
    rewrite (T (fun s => isChineseText s && matchesPhraseList s idioms)).
    rewrite (T (fun s => isChineseText s && matchesPhraseList s slang)).
    rewrite (T (fun s => isChineseText s && matchesPhraseList s idioms)).
    rewrite (T (fun s => isChineseText s && matchesPhraseList s slang)).
    now rewrite E.
  - intros idioms' slang' c Hc.
    rewrite !categorize_lookup
      by (intros ->; cbn in Hc; intuition discriminate).
    now rewrite !categorize_fold_primary.
Qed.

(** ** Frequency table *)

Lemma count_fold_lookup (content : list string) (m : gmap string nat)
    (k : string) :
  fold_left
    (fun counts item =>
       let capitalizedItem := capitalizePhrase item in
       <[capitalizedItem := S (default O (counts !! capitalizedItem))]> counts)
    content m !! k
  = match count_occ string_dec (map capitalizePhrase content) k with
    | O => m !! k
    | S n => Some (default O (m !! k) + S n)%nat
    end.
Proof.
  revert m. induction content as [|item content IH]; intros m; [reflexivity |].
  cbn [fold_left map count_occ]. rewrite IH. cbv zeta.
  destruct (string_dec (capitalizePhrase item) k) as [->|Hne].
  - rewrite lookup_insert_eq.
    destruct (m !! k) as [d|]; cbn;
      destruct (count_occ string_dec (map capitalizePhrase content) k);
      f_equal; lia.
  - now rewrite lookup_insert_ne by assumption.
Qed.

Lemma countFrequencies_lookup (content : list string) (k : string) :
  countFrequencies content !! k
  = match count_occ string_dec (map capitalizePhrase content) k with
    | O => None
    | S n => Some (S n)
    end.
Proof.
  unfold countFrequencies. rewrite count_fold_lookup, lookup_empty.
  reflexivity.
Qed.

(** One more occurrence adds one to the sum of the counts. *)
Lemma sum_counts_step (m : gmap string nat) (k : string) :
  sum_list ((map_to_list (<[k := S (default O (m !! k))]> m)).*2)
  = S (sum_list ((map_to_list m).*2)).
Proof.
  destruct (m !! k) as [c|] eqn:E; cbn [default].
  - rewrite <- insert_delete_eq.
    rewrite map_to_list_insert by apply lookup_delete_eq.
    rewrite <- (map_to_list_delete m k c E). reflexivity.
  - rewrite map_to_list_insert by assumption. reflexivity.
Qed.

Lemma sum_counts_fold (content : list string) (m : gmap string nat) :
  sum_list
    ((map_to_list
        (fold_left
           (fun counts item =>
              let capitalizedItem := capitalizePhrase item in
              <[capitalizedItem := S (default O (counts !! capitalizedItem))]>
                counts)
           content m)).*2)
  = (sum_list ((map_to_list m).*2) + length content)%nat.
Proof.
  revert m. induction content as [|item content IH]; intros m.
  - cbn. lia.
  - cbn [fold_left length]. rewrite IH. cbv zeta. rewrite sum_counts_step. lia.
Qed.

(** C10: the counts of the table add up to the number of items, every
    key is the normalization of some item, and its count is the number
    of items with that normalization. *)
Theorem countFrequencies_total (content : list string) :
  sum_list ((map_to_list (countFrequencies content)).*2) = length content
  /\ (forall k n,
        countFrequencies content !! k = Some n ->
        (exists item, In item content /\ k = capitalizePhrase item)
        /\ n = count_occ string_dec (map capitalizePhrase content) k
        /\ (1 <= n)%nat).
Proof.
  split.
  - unfold countFrequencies. rewrite sum_counts_fold, map_to_list_empty.
    reflexivity.
  - intros k n. rewrite countFrequencies_lookup.
    destruct (count_occ string_dec (map capitalizePhrase content) k)
      as [|c] eqn:E; [discriminate |].
    intros [= <-]. split; [| split; [reflexivity | lia]].
    assert (Hin : In k (map capitalizePhrase content)).
    { apply (count_occ_In string_dec). lia. }
    apply in_map_iff in Hin. destruct Hin as (item & <- & Hin).
    now exists item.
Qed.

(** ** Frequency Ranker *)


Lemma StronglySorted_map_on {A B : Type} (R : A -> A -> Prop)
    (R' : B -> B -> Prop) (f : A -> B) (P : A -> Prop) (l : list A) :
  Forall P l ->
  (forall x y, P x -> P y -> R x y -> R' (f x) (f y)) ->
  StronglySorted R l -> StronglySorted R' (map f l).
Proof.
  intros HP HR HS. induction HS as [|x l HS IH Hx]; cbn [map]; constructor.
  - apply IH. now inversion HP.
  - inversion HP as [|? ? Px Pl]; subst.
    rewrite List.Forall_forall in *. intros y Hy.
    apply in_map_iff in Hy. destruct Hy as (a & <- & Ha).
    apply HR; auto.
Qed.

(** The records that [sortByFrequency] sorts are the entries of the map. *)
Lemma sortByFrequency_items (counts : gmap string nat) :
  sortSlice byFrequency
    (map (fun '(item, freq) => {| Item := item; Frequency := freq |})
         (rangeMap counts))
  ≡ₚ map (fun '(item, freq) => {| Item := item; Frequency := freq |})
         (map_to_list counts).
Proof using rangeMap_perm sortSlice_perm.
  rewrite sortSlice_perm. apply Permutation_map, rangeMap_perm.
Qed.

Lemma sortByFrequency_perm (counts : gmap string nat) :
  sortByFrequency counts ≡ₚ map fst (map_to_list counts).
Proof using rangeMap_perm sortSlice_perm.
  unfold sortByFrequency. rewrite sortByFrequency_items, map_map.
  erewrite map_ext; [reflexivity |]. now intros [item freq].
Qed.

Lemma sortByFrequency_NoDup (counts : gmap string nat) :
  List.NoDup (sortByFrequency counts).
Proof using rangeMap_perm sortSlice_perm.
  apply NoDup_ListNoDup. rewrite sortByFrequency_perm.
  exact (NoDup_fst_map_to_list counts).
Qed.

Lemma sortByFrequency_In (counts : gmap string nat) (k : string) :
  In k (sortByFrequency counts) <-> is_Some (counts !! k).
Proof using rangeMap_perm sortSlice_perm.
  rewrite <- list_elem_of_In, sortByFrequency_perm, list_elem_of_In, in_map_iff.
  split.
  - intros ([k' v] & <- & Hin). exists v.
    now apply elem_of_map_to_list, list_elem_of_In.
  - intros [v Hv]. exists (k, v). split; [reflexivity |].
    now apply list_elem_of_In, elem_of_map_to_list.
Qed.

Lemma sortByFrequency_sorted (counts : gmap string nat) :
  StronglySorted
    (fun x y => (default O (counts !! y) <= default O (counts !! x))%nat)
    (sortByFrequency counts).
Proof using rangeMap_perm sortSlice_perm sortSlice_sorted.
  unfold sortByFrequency.
  apply (StronglySorted_map_on (fun a b => byFrequency b a = false) _ Item
           (fun a => counts !! Item a = Some (Frequency a))).
  - apply List.Forall_forall. intros a Ha.
    apply list_elem_of_In in Ha. rewrite sortByFrequency_items in Ha.
    apply list_elem_of_In, in_map_iff in Ha.
    destruct Ha as ([k v] & <- & Hin). cbn [Item Frequency].
    now apply elem_of_map_to_list, list_elem_of_In.
  - intros a b Ha Hb Hab. rewrite Ha, Hb. cbn.
    unfold byFrequency in Hab. apply Nat.ltb_ge in Hab. exact Hab.
  - apply sortSlice_sorted.
Qed.

(** The characters of a normalized item. *)
Lemma capitalizePhrase_runes (s : string) :
  utf8.stringtoslicerune (capitalizePhrase s)
  = match utf8.stringtoslicerune s with
    | [] => []
    | r0 :: rest => ToUpper r0 :: rest
    end.
Proof using ToUpper_valid.
  unfold capitalizePhrase. pose proof (stringtoslicerune_ValidRune s) as V.
  destruct (utf8.stringtoslicerune s) as [|r0 rest]; [reflexivity |].
  apply stringtoslicerune_slicerunetostring.
  inversion V; subst. constructor; [now apply ToUpper_valid | assumption].
Qed.

Lemma countFrequencies_default (items : list string) (k : string) :
  default O (countFrequencies items !! k)
  = count_occ string_dec (map capitalizePhrase items) k.
Proof.
  rewrite countFrequencies_lookup.
  now destruct (count_occ string_dec (map capitalizePhrase items) k).
Qed.

Lemma rank_NoDup (items : list string) : List.NoDup (rank items).
Proof using rangeMap_perm sortSlice_perm. apply sortByFrequency_NoDup. Qed.

Lemma rank_In (items : list string) (k : string) :
  In k (rank items) <-> In k (map capitalizePhrase items).
Proof using rangeMap_perm sortSlice_perm.
  unfold rank. rewrite sortByFrequency_In, countFrequencies_lookup.
  rewrite (count_occ_In string_dec).
  destruct (count_occ string_dec (map capitalizePhrase items) k).
  - split; [intros [? [=]] | lia].
  - split; [lia | eauto].
Qed.

Lemma rank_sorted (items : list string) :
  StronglySorted
    (fun x y =>
       (count_occ string_dec (map capitalizePhrase items) y
        <= count_occ string_dec (map capitalizePhrase items) x)%nat)
    (rank items).
Proof using rangeMap_perm sortSlice_perm sortSlice_sorted.
  rewrite <- (map_id (rank items)).
  apply (StronglySorted_map_on _ _ (fun x => x) (fun _ => True)
           _ (Forall_true _ _ (fun _ => I))
           (fun x y _ _ H => H)).
  pose proof (sortByFrequency_sorted (countFrequencies items)) as S.
  unfold rank. induction S as [|x l S IH Hx]; constructor.
  - exact IH.
  - eapply Forall_impl; [exact Hx |]. intros y Hy. cbv beta in *.
    now rewrite <- !countFrequencies_default.
Qed.

Lemma rank_nil : rank [] = [].
Proof using rangeMap_perm sortSlice_perm.
  unfold rank, countFrequencies. cbn [fold_left].
  apply Permutation_nil. symmetry.
  rewrite sortByFrequency_perm, map_to_list_empty. reflexivity.
Qed.

(** A ranked list of two items with different counts. *)
Lemma rank_two (items : list string) (a b : string) :
  a <> b ->
  (forall k, In k (map capitalizePhrase items) <-> k = a \/ k = b) ->
  (count_occ string_dec (map capitalizePhrase items) b
   < count_occ string_dec (map capitalizePhrase items) a)%nat ->
  rank items = [a; b].
Proof using rangeMap_perm sortSlice_perm sortSlice_sorted.
  intros Hab Hin Hlt. clear EqualFold.
  assert (P : [a; b] ≡ₚ rank items).
  { apply NoDup_Permutation.
    - apply NoDup_ListNoDup. repeat constructor; cbn; intuition congruence.
    - apply NoDup_ListNoDup, rank_NoDup.
    - intros k. rewrite !list_elem_of_In, rank_In, Hin. cbn. intuition. }
  apply Permutation_length_2_inv in P. destruct P as [E | E]; [exact E |].
  pose proof (rank_sorted items) as S. rewrite E in S.
  inversion S as [|? ? _ F]; subst. inversion F as [|? ? Hba _]; subst.
  lia.
Qed.

(** The bytes of a normalized item that is valid UTF-8: the item is the
    encoding of its first character followed by the rest, and the
    normalized item is the encoding of the upper case of that character
    followed by the same rest. *)
Lemma capitalizePhrase_bytes (c0 : ascii) (s1 : string) :
  utf8.ValidString (String c0 s1) = true ->
  String c0 s1
  = String.append
      (utf8.encoderune (fst (utf8.rangestep (String c0 s1))))
      (utf8.string_drop (snd (utf8.rangestep (String c0 s1))) (String c0 s1))
  /\ capitalizePhrase (String c0 s1)
     = String.append
         (utf8.encoderune (ToUpper (fst (utf8.rangestep (String c0 s1)))))
         (utf8.string_drop (snd (utf8.rangestep (String c0 s1)))
            (String c0 s1)).
Proof.
  rewrite ValidString_step. intros [Hv Hrest]%andb_true_iff.
  split; [apply rangestep_valid, Hv |].
  unfold capitalizePhrase. cbv zeta. rewrite stringtoslicerune_step.
  cbn [utf8.slicerunetostring].
  now rewrite slicerunetostring_stringtoslicerune.
Qed.

(** C4 (amended): the ranker normalizes each item by passing its first
    character through [unicode.ToUpper].  An item that is valid UTF-8 is
    the bytes of its first character followed by the rest, and its
    normalized form is the bytes of the upper case of that character
    followed by the same rest, byte for byte; the empty item stays
    empty.  For every item, valid or not, the characters that Go decodes
    after the first one are the same before and after.  The ranker
    counts the occurrences of each normalized item and returns the
    distinct normalized items, each once, ordered by descending count;
    it returns ["学霸"; "宅男"] on ["学霸"; "学霸"; "宅男"] and the empty
    list on the empty list. *)
Theorem rank_spec (items : list string) :
  let normalized := map capitalizePhrase items in
  let occ := count_occ string_dec normalized in
  (forall s,
      utf8.ValidString s = true ->
      match s with
      | EmptyString => capitalizePhrase s = EmptyString
      | String _ _ =>
        let r0 := fst (utf8.rangestep s) in
        let rest := utf8.string_drop (snd (utf8.rangestep s)) s in
        s = String.append (utf8.encoderune r0) rest
        /\ capitalizePhrase s
           = String.append (utf8.encoderune (ToUpper r0)) rest
      end)
  /\ (forall s,
        utf8.stringtoslicerune (capitalizePhrase s)
        = match utf8.stringtoslicerune s with
          | [] => []
          | r0 :: rest => ToUpper r0 :: rest
          end)
  /\ (forall k,
        countFrequencies items !! k
        = match occ k with O => None | S n => Some (S n) end)
  /\ List.NoDup (rank items)
  /\ (forall k, In k (rank items) <-> In k normalized)
  /\ StronglySorted (fun x y => (occ y <= occ x)%nat) (rank items)
  /\ rank ["学霸"; "学霸"; "宅男"]%string = ["学霸"; "宅男"]%string
  /\ rank [] = [].
Proof using Han_cjk ToUpper_Han ToUpper_valid rangeMap_perm sortSlice_perm sortSlice_sorted.
  cbv zeta. clear EqualFold.
  split.
  { intros [|c0 s1] Hv; [reflexivity |]. now apply capitalizePhrase_bytes. }
  split; [apply capitalizePhrase_runes |].
  split; [apply countFrequencies_lookup |].
  split; [apply rank_NoDup |].
  split; [apply rank_In |].
  split; [apply rank_sorted |].
  split; [| apply rank_nil].
  assert (Ea : capitalizePhrase "学霸" = "学霸"%string).
  { apply capitalizePhrase_fixed; [vm_compute; reflexivity |].
    assert (E : utf8.stringtoslicerune "学霸" = [0x5B66; 0x9738])
      by (vm_compute; reflexivity).
    rewrite E. intros r rest [= <- <-]. apply ToUpper_Han, Han_cjk. lia. }
  assert (Eb : capitalizePhrase "宅男" = "宅男"%string).
  { apply capitalizePhrase_fixed; [vm_compute; reflexivity |].
    assert (E : utf8.stringtoslicerune "宅男" = [0x5B85; 0x7537])
      by (vm_compute; reflexivity).
    rewrite E. intros r rest [= <- <-]. apply ToUpper_Han, Han_cjk. lia. }
  apply rank_two; cbn [map]; rewrite ?Ea, ?Eb.
  - discriminate.
  - intros k. cbn. intuition.
  - vm_compute. lia.
Qed.

(** ** Output files *)

(** The file of a category holds the ranked items of the category. *)
Lemma categorizeChineseText_lookup (tokens : list Token)
    (category filename : string) :
  In (category, filename) categoryFiles ->
  categorizeChineseText tokens !! filename
  = Some (writeLines (rank (categorize idioms slang tokens !!! category))).
Proof.
  unfold categorizeChineseText, categoryFiles. cbn [fold_left In].
  intros H.
  repeat (destruct H as [[= <- <-] | H];
          [repeat (rewrite lookup_insert_ne by discriminate);
           now rewrite lookup_insert_eq |]).
  destruct H.
Qed.

(** ** More on the classifier *)

Lemma primaryCategory_in (tag : string) :
  In (primaryCategory tag)
     [ "ChineseNouns"; "ChineseVerbs"; "ChineseAdjectives";
       "ChineseAdverbs"; "ChineseOtherExpressions" ]%string.
Proof.
  unfold primaryCategory. forget_params.
  repeat match goal with |- context [if ?b then _ else _] => destruct b end;
    cbn [In]; tauto.
Qed.

(** X1: the Characters slice holds the Han characters of the tokens that
    pass the Script Filter, token after token in stream order; the
    other tokens give nothing to it. *)
Theorem characters_bucket (idioms slang : list string) (tokens : list Token) :
  categorize idioms slang tokens !!! "ChineseCharacters"
  = concat (map (fun t => extractChineseCharacters (Text t))
                (List.filter (fun t => isChineseText (Text t)) tokens)).
Proof.
  rewrite categorize_lookup by discriminate.
  rewrite (categorize_fold_bucket idioms slang "ChineseCharacters"
             (fun t => if isChineseText (Text t)
                       then extractChineseCharacters (Text t) else [])).
  - rewrite lookup_total_empty.
    change (@inhabitant (list string) _) with (@nil string). cbn [app].
    induction tokens as [|t tokens IH]; [reflexivity |].
    cbn [map concat List.filter]. rewrite IH.
    destruct (isChineseText (Text t)); reflexivity.
  - intros results tok. unfold categorizeStep.
    destruct (isChineseText (Text tok)); [| now rewrite app_nil_r].
    assert (E : String.eqb "ChineseCharacters" (primaryCategory (Tag tok))
                = false).
    { unfold primaryCategory.
      repeat match goal with |- context [if ?b then _ else _] => destruct b end;
        reflexivity. }
    destruct (matchesPhraseList (Text tok) idioms),
             (matchesPhraseList (Text tok) slang);
      rewrite !appendTo_lookup, ?E; cbn [String.eqb Ascii.eqb Bool.eqb];
      reflexivity.
Qed.

(** X2: a token that fails the Script Filter changes nothing in the map
    of results: with or without it, every slice of the map, the noun
    and verb phrases included, is the same. *)
Theorem categorize_skips_non_chinese (idioms slang : list string)
    (l1 l2 : list Token) (t : Token) :
  isChineseText (Text t) = false ->
  categorize idioms slang (l1 ++ t :: l2) = categorize idioms slang (l1 ++ l2).
Proof.
  intros Hc.
  assert (P : forall group,
             chunkPhrases group (l1 ++ t :: l2) = chunkPhrases group (l1 ++ l2)).
  { intros group. unfold chunkPhrases. rewrite !fold_left_app.
    cbn [fold_left]. now rewrite chunk_fold_skip. }
  unfold categorize, extractNounPhrases, extractVerbPhrases.
  rewrite !P, !fold_left_app. cbn [fold_left].
  unfold categorizeStep at 2. now rewrite Hc.
Qed.

(** X3: whatever sits in the Idioms or the Slang slice is the text of a
    token of the stream that passes the Script Filter, and sits in the
    primary slice of that token's tag as well. *)
Theorem secondary_in_primary (idioms slang : list string)
    (tokens : list Token) (x : string) :
  In x (categorize idioms slang tokens !!! "ChineseIdioms")
  \/ In x (categorize idioms slang tokens !!! "ChineseSlang") ->
  exists t, In t tokens /\ Text t = x /\ isChineseText x = true
            /\ In x (categorize idioms slang tokens
                       !!! primaryCategory (Tag t)).
Proof.
  intros H.
  assert (Ht : exists t, In t tokens /\ Text t = x
                         /\ isChineseText (Text t) = true).
  { destruct H as [H | H]; rewrite categorize_lookup in H by discriminate.
    - rewrite categorize_fold_idioms in H. apply in_map_iff in H.
      destruct H as (t & <- & Ht). apply List.filter_In in Ht.
      destruct Ht as [Hin [Hc _]%andb_true_iff]. now exists t.
    - rewrite categorize_fold_slang in H. apply in_map_iff in H.
      destruct H as (t & <- & Ht). apply List.filter_In in Ht.
      destruct Ht as [Hin [Hc _]%andb_true_iff]. now exists t. }
  destruct Ht as (t & Hin & <- & Hc). exists t.
  repeat split; try assumption.
  pose proof (primaryCategory_in (Tag t)) as Hp.
  rewrite categorize_lookup
    by (intros E; rewrite E in Hp; cbn in Hp; intuition discriminate).
  rewrite categorize_fold_primary by assumption.
  apply in_map. apply List.filter_In. split; [assumption |].
  now rewrite Hc, String.eqb_refl.
Qed.

(** ** More on the frequency ranker *)

Lemma stringtoslicerune_empty (s : string) :
  utf8.stringtoslicerune s = [] -> s = EmptyString.
Proof.
  destruct s as [|c0 s1]; [reflexivity |].
  rewrite stringtoslicerune_step. discriminate.
Qed.

(** X4: a normalized item is always valid UTF-8, has as many characters
    as the item, and is empty only when the item is. *)
Theorem capitalizePhrase_wellformed (s : string) :
  utf8.ValidString (capitalizePhrase s) = true
  /\ length (utf8.stringtoslicerune (capitalizePhrase s))
     = length (utf8.stringtoslicerune s)
  /\ (capitalizePhrase s = EmptyString <-> s = EmptyString).
Proof using ToUpper_valid.
  split; [| split].
  - unfold capitalizePhrase.
    pose proof (stringtoslicerune_ValidRune s) as V.
    apply ValidString_slicerunetostring.
    destruct (utf8.stringtoslicerune s) as [|r0 rest]; [constructor |].
    inversion V; subst. constructor; [now apply ToUpper_valid | assumption].
  - rewrite capitalizePhrase_runes.
    now destruct (utf8.stringtoslicerune s).
  - split.
    + intros E. apply stringtoslicerune_empty.
      pose proof (capitalizePhrase_runes s) as R. rewrite E in R.
      destruct (utf8.stringtoslicerune s); [reflexivity | discriminate].
    + intros ->. reflexivity.
Qed.

(** X5: the frequency table depends on how often each item occurs, not
    on the order of the items. *)
Theorem countFrequencies_Permutation (items items' : list string) :
  items ≡ₚ items' ->
  countFrequencies items = countFrequencies items'.
Proof.
  intros P. apply map_eq. intros k. rewrite !countFrequencies_lookup.
  assert (C : count_occ string_dec (map capitalizePhrase items) k
              = count_occ string_dec (map capitalizePhrase items') k).
  { apply (Permutation_count_occ string_dec). now apply Permutation_map. }
  now rewrite C.
Qed.

(** X6: counting a concatenation adds the counts of its two parts. *)
Theorem countFrequencies_app (l1 l2 : list string) (k : string) :
  default O (countFrequencies (l1 ++ l2) !! k)
  = (default O (countFrequencies l1 !! k)
     + default O (countFrequencies l2 !! k))%nat.
Proof.
  rewrite !countFrequencies_default, map_app. apply count_occ_app.
Qed.

(** X7: the ranked list is a rearrangement of the distinct normalized
    items, so it is never longer than the list of items. *)
Theorem rank_distinct (items : list string) :
  rank items ≡ₚ nodup string_dec (map capitalizePhrase items)
  /\ (length (rank items) <= length items)%nat.
Proof using rangeMap_perm sortSlice_perm.
  assert (P : rank items ≡ₚ nodup string_dec (map capitalizePhrase items)).
  { apply NoDup_Permutation.
    - apply NoDup_ListNoDup, rank_NoDup.
    - apply NoDup_ListNoDup, NoDup_nodup.
    - intros k. now rewrite !list_elem_of_In, rank_In, nodup_In. }
  split; [exact P |].
  rewrite (Permutation_length P).
  rewrite <- (length_map capitalizePhrase items).
  apply NoDup_incl_length; [apply NoDup_nodup |].
  intros k. apply nodup_In.
Qed.

(** X8: items that share one normalization are merged into a single
    entry of the ranked list. *)
Theorem rank_merges_variants (items : list string) (k : string) :
  items <> [] ->
  (forall item, In item items -> capitalizePhrase item = k) ->
  rank items = [k].
Proof using rangeMap_perm sortSlice_perm.
  intros Hne Hk.
  assert (Hin : forall x, In x (rank items) <-> x = k).
  { intros x. rewrite rank_In, in_map_iff. split.
    - intros (item & <- & Hi). now apply Hk.
    - intros ->. destruct items as [|item items]; [contradiction |].
      exists item. split; [apply Hk |]; now left. }
  pose proof (rank_NoDup items) as N.
  destruct (rank items) as [|x [|y l]].
  - exfalso. now apply (proj2 (Hin k)).
  - f_equal. apply Hin. now left.
  - exfalso. inversion N as [|? ? Nx _]; subst. apply Nx.
    rewrite (proj1 (Hin x)) by (now left).
    rewrite <- (proj1 (Hin y)) by (right; now left). now left.
Qed.

(** X9: when there is an item at all, the ranked list starts with an
    item that no other item occurs more often than. *)
Theorem rank_head_max (items : list string) :
  items <> [] ->
  exists top rest,
    rank items = top :: rest
    /\ forall k,
         (count_occ string_dec (map capitalizePhrase items) k
          <= count_occ string_dec (map capitalizePhrase items) top)%nat.
Proof using rangeMap_perm sortSlice_perm sortSlice_sorted.
  intros Hne. pose proof (rank_sorted items) as S.
  pose proof (rank_In items) as Hin.
  destruct (rank items) as [|top rest].
  - exfalso. destruct items as [|item items]; [contradiction |].
    apply (proj2 (Hin (capitalizePhrase item))). now left.
  - exists top, rest. split; [reflexivity |]. intros k.
    destruct (in_dec string_dec k (map capitalizePhrase items)) as [Hk | Hk].
    + apply Hin in Hk. destruct Hk as [<- | Hk]; [reflexivity |].
      inversion S as [|? ? _ F]; subst.
      rewrite List.Forall_forall in F. now apply F.
    + apply (count_occ_not_In string_dec) in Hk. rewrite Hk. apply Nat.le_0_l.
Qed.

(** ** Concatenation *)

Lemma append_assoc (s t u : string) :
  String.append (String.append s t) u = String.append s (String.append t u).
Proof.
  induction s as [|c s IH]; [reflexivity |].
  rewrite !append_cons. now f_equal.
Qed.

Lemma stringtoslicerune_slicerunetostring_app (a : list Z) (t : string) :
  Forall (fun r => utf8.ValidRune r = true) a ->
  utf8.stringtoslicerune (String.append (utf8.slicerunetostring a) t)
  = a ++ utf8.stringtoslicerune t.
Proof.
  induction 1 as [|r a Hr _ IH]; [reflexivity |].
  cbn [utf8.slicerunetostring app]. rewrite append_assoc.
  rewrite stringtoslicerune_encoderune by assumption. now rewrite IH.
Qed.

(** The characters of a concatenation whose first part is valid UTF-8. *)
Lemma stringtoslicerune_app (s t : string) :
  utf8.ValidString s = true ->
  utf8.stringtoslicerune (String.append s t)
  = utf8.stringtoslicerune s ++ utf8.stringtoslicerune t.
Proof.
  intros V.
  rewrite <- (slicerunetostring_stringtoslicerune s V) at 1.
  apply stringtoslicerune_slicerunetostring_app, stringtoslicerune_ValidRune.
Qed.

Lemma isChineseRunes_app (l1 l2 : list Z) :
  isChineseRunes (l1 ++ l2) = isChineseRunes l1 && isChineseRunes l2.
Proof.
  induction l1 as [|r l1 IH]; [reflexivity |].
  cbn [app isChineseRunes]. rewrite IH.
  now destruct (negb (Han r) && negb (r =? 32) && negb (r =? 45)).
Qed.

(** X10: a text that passes the Script Filter can be followed by any
    text: the filter then decides on what follows. *)
Theorem isChineseText_app (s t : string) :
  isChineseText s = true ->
  isChineseText (String.append s t) = isChineseText t.
Proof using Han_RuneError.
  intros Hs. unfold isChineseText.
  rewrite stringtoslicerune_app by now apply isChineseText_ValidString.
  rewrite isChineseRunes_app. unfold isChineseText in Hs. now rewrite Hs.
Qed.

Lemma isChineseText_Join (ts : list string) :
  Forall (fun s => isChineseText s = true) ts ->
  isChineseText (Join ts " ") = true.
Proof using Han_RuneError.
  induction 1 as [|e ts He _ IH]; [reflexivity |].
  destruct ts as [|e' ts]; [exact He |].
  change (Join (e :: e' :: ts) " ")
    with (String.append e (String.append " " (Join (e' :: ts) " "))).
  unfold isChineseText in *.
  rewrite stringtoslicerune_app by now apply isChineseText_ValidString.
  rewrite isChineseRunes_app, He. cbn [andb].
  rewrite (stringtoslicerune_app " ") by reflexivity.
  rewrite isChineseRunes_app, IH.
  change (utf8.stringtoslicerune " ") with [32].
  cbn [isChineseRunes]. now rewrite andb_false_r.
Qed.

Lemma isChineseText_fixed (s : string) :
  isChineseText s = true -> capitalizePhrase s = s.
Proof using Han_RuneError ToUpper_Han ToUpper_space ToUpper_hyphen.
  intros Hs. apply capitalizePhrase_fixed.
  - now apply isChineseText_ValidString.
  - intros r rest E. unfold isChineseText in Hs. rewrite E in Hs.
    apply isChineseRunes_Forall, Forall_cons_iff, proj1 in Hs.
    destruct Hs as [Hr|[->| ->]];
      [now apply ToUpper_Han | apply ToUpper_space | apply ToUpper_hyphen].
Qed.

(** X11: every noun phrase and every verb phrase passes the Script
    Filter, so the frequency ranker leaves its text as it is. *)
Theorem phrases_pass_filter (group : string -> bool) (tokens : list Token) :
  Forall (fun p => isChineseText p = true) (chunkPhrases group tokens)
  /\ map capitalizePhrase (chunkPhrases group tokens)
     = chunkPhrases group tokens.
Proof using Han_RuneError ToUpper_Han ToUpper_space ToUpper_hyphen.
  assert (F : Forall (fun p => isChineseText p = true)
                     (chunkPhrases group tokens)).
  { apply List.Forall_forall. intros p Hp.
    rewrite chunkPhrases_flush in Hp.
    destruct (chunk_fold_invariant group tokens tokens [] []) as [Hph Hcur].
    - auto.
    - intros q [].
    - exists []. split; [reflexivity | constructor].
    - assert (G : exists ts, p = Join (map Text ts) " "
                    /\ Forall (fun t => In t tokens
                                        /\ isChineseText (Text t) = true
                                        /\ group (Tag t) = true) ts).
      { apply in_app_iff in Hp. destruct Hp as [Hp | Hp].
        - destruct (Hph p Hp) as (ts & _ & E & Hts). now exists ts.
        - destruct Hcur as (cs & E & Hcs).
          destruct (fold_left (chunkStep group) tokens ([], [])).2
            as [|x cur]; [destruct Hp |].
          destruct Hp as [<- | []]. exists cs. now rewrite E. }
      destruct G as (ts & -> & Hts). apply isChineseText_Join.
      apply Forall_map. eapply Forall_impl; [exact Hts |].
      intros t (_ & Hc & _). exact Hc. }
  split; [exact F |].
  induction F as [|p ps Hp _ IH]; [reflexivity |].
  cbn [map]. now rewrite isChineseText_fixed, IH.
Qed.

(** ** Nothing is lost by the chunker *)

Lemma chunk_fold_groups (group : string -> bool) (tokens : list Token)
    (gs : list (list Token)) (cs : list Token) :
  Forall (fun g => g <> []) gs ->
  exists gs' cs',
    fold_left (chunkStep group) tokens
      (map (fun g => Join (map Text g) " ") gs, map Text cs)
    = (map (fun g => Join (map Text g) " ") gs', map Text cs')
    /\ concat gs' ++ cs'
       = concat gs ++ cs
         ++ List.filter
              (fun t => isChineseText (Text t) && group (Tag t)) tokens
    /\ Forall (fun g => g <> []) gs'.
Proof.
  revert gs cs. induction tokens as [|t tokens IH]; intros gs cs Hgs.
  - exists gs, cs. cbn. now rewrite app_nil_r.
  - cbn [fold_left List.filter]. unfold chunkStep at 2.
    destruct (isChineseText (Text t)) eqn:Hc; cbn [andb]; [| now apply IH].
    destruct (group (Tag t)) eqn:Hg.
    + destruct (IH gs (cs ++ [t]) Hgs) as (gs' & cs' & E & C & F).
      exists gs', cs'. rewrite map_app in E. split; [exact E |].
      split; [| exact F]. now rewrite C, <- !app_assoc.
    + destruct cs as [|c cs]; cbn [map length Nat.ltb Nat.leb].
      * exact (IH gs [] Hgs).
      * destruct (IH (gs ++ [c :: cs]) []) as (gs' & cs' & E & C & F).
        { apply Forall_app. split; [exact Hgs |].
          constructor; [discriminate | constructor]. }
        exists gs', cs'. rewrite map_app in E. split; [exact E |].
        split; [| exact F]. rewrite C, concat_app. cbn [concat app].
        now rewrite !app_nil_r, <- !app_assoc.
Qed.

(** X12: the phrases split the tokens that pass the Script Filter and
    carry a tag of the group into non-empty groups, in stream order:
    each of these tokens is in exactly one phrase, and a stream without
    such a token gives no phrase. *)
Theorem chunkPhrases_partition (group : string -> bool)
    (tokens : list Token) :
  (exists gs,
      chunkPhrases group tokens = map (fun g => Join (map Text g) " ") gs
      /\ concat gs
         = List.filter
             (fun t => isChineseText (Text t) && group (Tag t)) tokens
      /\ Forall (fun g => g <> []) gs)
  /\ ((forall t, In t tokens ->
                 isChineseText (Text t) && group (Tag t) = false) ->
      chunkPhrases group tokens = []).
Proof.
  assert (G : exists gs,
             chunkPhrases group tokens
             = map (fun g => Join (map Text g) " ") gs
             /\ concat gs
                = List.filter
                    (fun t => isChineseText (Text t) && group (Tag t)) tokens
             /\ Forall (fun g => g <> []) gs).
  { destruct (chunk_fold_groups group tokens [] []) as (gs & cs & E & C & F);
      [constructor |].
    cbn [map concat app] in E, C. rewrite chunkPhrases_flush, E.
    cbn [fst snd]. destruct cs as [|c cs]; cbn [map].
    - exists gs. rewrite app_nil_r in *. now repeat split.
    - exists (gs ++ [c :: cs]). rewrite map_app, concat_app.
      cbn [map concat]. rewrite app_nil_r. repeat split; try assumption.
      apply Forall_app. split; [exact F |].
      constructor; [discriminate | constructor]. }
  split; [exact G |].
  intros Hnone. destruct G as (gs & -> & C & F).
  assert (N : List.filter
                (fun t => isChineseText (Text t) && group (Tag t)) tokens
              = []).
  { clear C. induction tokens as [|t tokens IH]; [reflexivity |].
    cbn [List.filter]. rewrite (Hnone t) by now left.
    apply IH. intros t' Ht'. apply Hnone. now right. }
  rewrite N in C. destruct gs as [|g gs]; [reflexivity |].
  inversion F as [|? ? Hg _]; subst. cbn [concat] in C.
  apply app_eq_nil in C. destruct C as [-> _]. contradiction.
Qed.

(** ** More on the character extractor *)

Lemma extractChineseCharacters_filter (s : string) :
  extractChineseCharacters s
  = map utf8.intstring (List.filter Han (utf8.stringtoslicerune s)).
Proof. unfold extractChineseCharacters. now rewrite extract_fold. Qed.

Lemma Join_empty_sep (rs : list Z) :
  Join (map utf8.intstring rs) EmptyString = utf8.slicerunetostring rs.
Proof.
  induction rs as [|r rs IH]; [reflexivity |].
  cbn [map utf8.slicerunetostring]. rewrite <- IH.
  destruct rs as [|r' rs]; [now rewrite append_nil_r |].
  reflexivity.
Qed.

(** X13: each extracted character passes the Script Filter and is its
    own only character; and gluing together the characters extracted
    from a valid text made of Han characters gives the text back. *)
Theorem extractChineseCharacters_roundtrip (s : string) :
  (forall c, In c (extractChineseCharacters s) ->
             isChineseText c = true /\ extractChineseCharacters c = [c])
  /\ (utf8.ValidString s = true ->
      Forall (fun r => Han r = true) (utf8.stringtoslicerune s) ->
      Join (extractChineseCharacters s) EmptyString = s).
Proof.
  split.
  - intros c Hc. rewrite extractChineseCharacters_filter in Hc.
    apply in_map_iff in Hc. destruct Hc as (r & <- & Hr).
    apply List.filter_In in Hr. destruct Hr as [Hin HH].
    assert (Hv : utf8.ValidRune r = true).
    { pose proof (stringtoslicerune_ValidRune s) as F.
      rewrite List.Forall_forall in F. now apply F. }
    unfold isChineseText. rewrite extractChineseCharacters_filter.
    rewrite stringtoslicerune_intstring by assumption.
    cbn [isChineseRunes List.filter]. now rewrite HH.
  - intros V F. rewrite extractChineseCharacters_filter.
    assert (E : List.filter Han (utf8.stringtoslicerune s)
                = utf8.stringtoslicerune s).
    { induction F as [|r rs Hr _ IH]; [reflexivity |].
      cbn [List.filter]. now rewrite Hr, IH. }
    rewrite E, Join_empty_sep. now apply slicerunetostring_stringtoslicerune.
Qed.

(** X14: the characters of a concatenation whose first part is valid
    UTF-8 are the characters of the first part, then those of the
    second. *)
Theorem extractChineseCharacters_app (s t : string) :
  utf8.ValidString s = true ->
  extractChineseCharacters (String.append s t)
  = extractChineseCharacters s ++ extractChineseCharacters t.
Proof.
  intros V. rewrite !extractChineseCharacters_filter.
  rewrite stringtoslicerune_app by assumption.
  now rewrite List.filter_app, map_app.
Qed.


(** ** Writing the files *)

Lemma writeCategories_ok (creatable : string -> bool)
    (results : gmap string (list string)) (order : list (string * string))
    (dir : gmap string string) :
  (forall c f, In (c, f) order -> creatable f = true) ->
  writeCategories creatable results order dir
  = (fold_left
       (fun files '(category, filename) =>
          <[filename := writeLines (rank (results !!! category))]> files)
       order dir,
     None).
Proof.
  revert dir. induction order as [|[c f] order IH]; intros dir H;
    [reflexivity |].
  cbn [writeCategories fold_left]. rewrite (H c f) by now left.
  apply IH. intros c' f' Hin. apply (H c' f'). now right.
Qed.

Lemma fold_insert_union (results : gmap string (list string))
    (order : list (string * string)) (dir : gmap string string) :
  fold_left
    (fun files '(category, filename) =>
       <[filename := writeLines (rank (results !!! category))]> files)
    order dir
  = list_to_map
      (rev (map (fun '(category, filename) =>
                   (filename, writeLines (rank (results !!! category))))
                order))
    ∪ dir.
Proof.
  revert dir. induction order as [|[c f] order IH]; intros dir.
  - cbn. now rewrite (left_id ∅ (∪)).
  - cbn [fold_left map rev]. rewrite IH, list_to_map_app.
    rewrite <- (assoc (∪)). f_equal.
    rewrite insert_union_singleton_l. reflexivity.
Qed.

Lemma categoryFiles_NoDup : List.NoDup (map snd categoryFiles).
Proof.
  unfold categoryFiles. cbn [map snd]. forget_params.
  repeat (constructor; [cbn [In]; intuition discriminate |]). constructor.
Qed.

Lemma writeCategories_error (creatable : string -> bool)
    (results : gmap string (list string))
    (before after : list (string * string)) (c f : string)
    (dir : gmap string string) :
  (forall c' f', In (c', f') before -> creatable f' = true) ->
  creatable f = false ->
  writeCategories creatable results (before ++ (c, f) :: after) dir
  = (fold_left
       (fun files '(category, filename) =>
          <[filename := writeLines (rank (results !!! category))]> files)
       before dir,
     Some (failedCreate c)).
Proof.
  revert dir. induction before as [|[c' f'] before IH]; intros dir H Hf.
  - cbn [app writeCategories fold_left]. now rewrite Hf.
  - cbn [app writeCategories fold_left]. rewrite (H c' f') by now left.
    apply IH; [| exact Hf]. intros c'' f'' Hin. apply (H c'' f''). now right.
Qed.

(** The names of the files that the loop writes. *)
Lemma written_names (results : gmap string (list string))
    (l : list (string * string)) :
  (rev (map (fun '(category, filename) =>
               (filename, writeLines (rank (results !!! category)))) l)).*1
  ≡ₚ map snd l.
Proof.
  rewrite <- Permutation_rev.
  change (fst <$> ?x) with (map fst x). rewrite map_map.
  erewrite map_ext; [reflexivity |]. now intros [c f].
Qed.

(** The order of the visit does not matter when every file can be
    created. *)
Lemma fold_insert_Permutation (results : gmap string (list string))
    (order : list (string * string)) (dir : gmap string string) :
  order ≡ₚ categoryFiles ->
  fold_left
    (fun files '(category, filename) =>
       <[filename := writeLines (rank (results !!! category))]> files)
    order dir
  = fold_left
      (fun files '(category, filename) =>
         <[filename := writeLines (rank (results !!! category))]> files)
      categoryFiles ∅
    ∪ dir.
Proof.
  intros P. rewrite !fold_insert_union, (right_id ∅ (∪)). f_equal.
  apply list_to_map_proper.
  - rewrite written_names, P. apply NoDup_ListNoDup, categoryFiles_NoDup.
  - rewrite <- !Permutation_rev. now apply Permutation_map.
Qed.

(** X15: when every output file can be created, the loop writes the
    eleven files, each with the ranked items of its category, whatever
    order the categories are visited in; a file of the directory with
    another name is left as it is; and no error is returned. *)
Theorem writeCategories_all (creatable : string -> bool)
    (tokens : list Token) (order : list (string * string))
    (dir : gmap string string) :
  order ≡ₚ categoryFiles ->
  (forall c f, In (c, f) categoryFiles -> creatable f = true) ->
  writeCategories creatable (categorize idioms slang tokens) order dir
  = (categorizeChineseText tokens ∪ dir, None).
Proof.
  intros P H. rewrite writeCategories_ok.
  - now rewrite fold_insert_Permutation.
  - intros c f Hin. apply (H c f).
    apply list_elem_of_In. rewrite <- P. now apply list_elem_of_In.
Qed.

(** X16: when the file of a category cannot be created, the loop stops
    there and returns the error of that category; the files of the
    categories visited before are written and stay, and every other
    file of the directory is left as it was. *)
Theorem writeCategories_stops (creatable : string -> bool)
    (results : gmap string (list string))
    (before after : list (string * string)) (c f : string)
    (dir : gmap string string) :
  List.NoDup (map snd (before ++ (c, f) :: after)) ->
  (forall c' f', In (c', f') before -> creatable f' = true) ->
  creatable f = false ->
  let out :=
    writeCategories creatable results (before ++ (c, f) :: after) dir in
  out.2 = Some (failedCreate c)
  /\ (forall c' f', In (c', f') before ->
        out.1 !! f' = Some (writeLines (rank (results !!! c'))))
  /\ (forall f', ~ In f' (map snd before) -> out.1 !! f' = dir !! f').
Proof.
  intros N H Hf out. unfold out.
  rewrite writeCategories_error by assumption. cbn [fst snd].
  split; [reflexivity |].
  rewrite map_app in N. apply NoDup_app_remove_r in N.
  rewrite fold_insert_union.
  assert (N' : NoDup
                 ((rev (map (fun '(category, filename) =>
                               (filename,
                                writeLines (rank (results !!! category))))
                            before)).*1)).
  { rewrite written_names. now apply NoDup_ListNoDup. }
  split.
  - intros c' f' Hin. apply lookup_union_Some_l.
    apply elem_of_list_to_map; [exact N' |].
    apply list_elem_of_In, in_rev. rewrite rev_involutive.
    apply in_map_iff. exists (c', f'). now split.
  - intros f' Hnot. rewrite lookup_union_r; [reflexivity |].
    apply not_elem_of_list_to_map. intros Hin. apply Hnot.
    apply list_elem_of_In in Hin.
    change (fst <$> ?l) with (map fst l) in Hin.
    apply in_map_iff in Hin. destruct Hin as ([f0 v] & <- & Hin).
    apply in_rev in Hin. rewrite ?rev_involutive in Hin.
    apply in_map_iff in Hin. destruct Hin as ([c0 f1] & [= <- _] & Hin).
    apply in_map_iff. exists (c0, f1). now split.
Qed.

Lemma writeCategories_result (creatable : string -> bool)
    (results : gmap string (list string)) (order : list (string * string))
    (dir : gmap string string) :
  ((writeCategories creatable results order dir).2 = None
   /\ forall c f, In (c, f) order -> creatable f = true)
  \/ exists c f,
       (writeCategories creatable results order dir).2
       = Some (failedCreate c)
       /\ In (c, f) order /\ creatable f = false.
Proof.
  revert dir. induction order as [|[c f] order IH]; intros dir.
  - left. split; [reflexivity | intros c f []].
  - cbn [writeCategories]. destruct (creatable f) eqn:E.
    + destruct (IH (<[f := writeLines (rank (results !!! c))]> dir))
        as [[-> H] | (c' & f' & -> & Hin & Hf)].
      * left. split; [reflexivity |].
        intros c' f' [[= <- <-] | Hin]; [exact E | now apply (H c' f')].
      * right. exists c', f'. repeat split; [now right | exact Hf].
    + right. exists c, f. repeat split; [now left | exact E].
Qed.

(** X17: a run returns no error exactly when the input file opens, the
    scanner and the tagger do not fail and every output file can be
    created; when it fails before the writing starts, the output
    directory is left as it was; and the only other error is that of a
    category whose file cannot be created. *)
Theorem categorizeChineseTextRun_outcome
    (NewDocument : string -> option (list Token))
    (input : option (list string * bool)) (creatable : string -> bool)
    (order : list (string * string)) (dir : gmap string string) :
  order ≡ₚ categoryFiles ->
  let out := categorizeChineseTextRun NewDocument input creatable order dir in
  (out.2 = None <->
   exists lines tokens,
     input = Some (lines, false)
     /\ NewDocument (readContent lines) = Some tokens
     /\ forall c f, In (c, f) categoryFiles -> creatable f = true)
  /\ (out.2 = Some failedOpen \/ out.2 = Some errorReading
      \/ out.2 = Some errorProse -> out.1 = dir)
  /\ (forall c, out.2 = Some (failedCreate c) ->
        exists f, In (c, f) categoryFiles /\ creatable f = false).
Proof.
  intros P out. unfold out, categorizeChineseTextRun.
  assert (Q : forall c f, In (c, f) order <-> In (c, f) categoryFiles).
  { intros c f. rewrite <- !list_elem_of_In. now rewrite P. }
  destruct input as [[lines [|]] |]; cbn [fst snd].
  - split; [| split]; [| reflexivity | discriminate].
    split; [discriminate | intros (l & t & [=] & _)].
  - destruct (NewDocument (readContent lines)) as [tokens |] eqn:E;
      cbn [fst snd].
    + destruct (writeCategories_result creatable
                  (categorize idioms slang tokens) order dir)
        as [[R H] | (c & f & R & Hin & Hf)]; rewrite R.
      * split; [| split].
        -- split; [| reflexivity]. intros _. exists lines, tokens.
           repeat split; try assumption.
           intros c f Hin. apply (H c f). now apply Q.
        -- intros [H' | [H' | H']]; discriminate.
        -- discriminate.
      * split; [| split].
        -- split; [discriminate |].
           intros (l & t & [= <-] & E' & H). rewrite (H c f) in Hf.
           ++ discriminate.
           ++ now apply Q.
        -- intros [H' | [H' | H']]; discriminate.
        -- intros c' [= <-]. exists f. split; [now apply Q | exact Hf].
    + split; [| split]; [| reflexivity | discriminate].
      split; [discriminate |].
      intros (l & t & [= <-] & E' & _). congruence.
  - split; [| split]; [| reflexivity | discriminate].
    split; [discriminate | intros (l & t & [=] & _)].
Qed.

(** ** Files that are always written *)

(** X18: nothing is ever stored under the CommonPhrases category, and
    its file is written empty for every input. *)
Theorem common_phrases_empty (idioms' slang' : list string)
    (tokens : list Token) :
  categorize idioms' slang' tokens !!! "ChineseCommonPhrases" = []
  /\ categorizeChineseText tokens !! "ChineseCommonPhrases.txt"
     = Some EmptyString.
Proof using rangeMap_perm sortSlice_perm.
  assert (E : forall i s,
             categorize i s tokens !!! "ChineseCommonPhrases" = []).
  { intros i s. rewrite categorize_lookup by discriminate.
    rewrite (categorize_fold_bucket i s "ChineseCommonPhrases"
               (fun _ => [])).
    - rewrite lookup_total_empty.
      change (@inhabitant (list string) _) with (@nil string). cbn [app].
      induction tokens as [|t tokens IH]; [reflexivity | exact IH].
    - intros results tok. rewrite app_nil_r. unfold categorizeStep.
      destruct (isChineseText (Text tok)); [| reflexivity].
      assert (Ep : String.eqb "ChineseCommonPhrases"
                     (primaryCategory (Tag tok)) = false).
      { unfold primaryCategory.
        repeat match goal with
               | |- context [if ?b then _ else _] => destruct b
               end; reflexivity. }
      destruct (matchesPhraseList (Text tok) i),
               (matchesPhraseList (Text tok) s);
        rewrite !appendTo_lookup, ?Ep; reflexivity. }
  split; [apply E |].
  rewrite (categorizeChineseText_lookup tokens "ChineseCommonPhrases")
    by (unfold categoryFiles; cbn [In]; tauto).
  now rewrite E, rank_nil.
Qed.

(** X19: the files written are the eleven files of [categoryFiles] and
    no other, whatever the tokens; on an empty token stream each of
    them is written empty. *)
Theorem output_files (tokens : list Token) (f : string) :
  (is_Some (categorizeChineseText tokens !! f)
   <-> In f (map snd categoryFiles))
  /\ (In f (map snd categoryFiles) ->
      categorizeChineseText [] !! f = Some EmptyString).
Proof using rangeMap_perm sortSlice_perm.
  split.
  - split.
    + intros H. unfold categorizeChineseText in H.
      rewrite fold_insert_union, (right_id ∅ (∪)) in H.
      destruct (decide (f ∈ (rev (map (fun '(category, filename) =>
                   (filename,
                    writeLines
                      (rank (categorize idioms slang tokens !!! category))))
                   categoryFiles)).*1)) as [Hin | Hnot].
      * rewrite written_names in Hin. now apply list_elem_of_In.
      * apply not_elem_of_list_to_map in Hnot. rewrite Hnot in H.
        now destruct H.
    + intros Hin. apply in_map_iff in Hin.
      destruct Hin as ([c f'] & <- & Hin). cbn [snd].
      rewrite (categorizeChineseText_lookup tokens c f' Hin). eauto.
  - intros Hin. apply in_map_iff in Hin.
    destruct Hin as ([c f'] & <- & Hin). cbn [snd].
    rewrite (categorizeChineseText_lookup [] c f' Hin).
    assert (E : categorize idioms slang [] !!! c = []).
    { unfold categorize. cbn [fold_left].
      rewrite !lookup_total_insert. repeat case_decide; reflexivity. }
    now rewrite E, rank_nil.
Qed.

End Program.


(** C9 as stated fails: the string made of "中" and the byte 0xFF starts
    with a Han character, and [capitalizePhrase] turns its invalid last
    byte into the three bytes of U+FFFD. *)
Lemma capitalizePhrase_invalid_tail :
  let s := String.append "中" (String "255" EmptyString) in
  (exists rest, utf8.stringtoslicerune s = 0x4E2D :: rest)
  /\ ref.Han 0x4E2D = true
  /\ ref.ToUpper 0x4E2D = 0x4E2D
  /\ capitalizePhrase ref.ToUpper s <> s.
Proof.
  cbv zeta. split; [| split; [| split]].
  - eexists. vm_compute. reflexivity.
  - vm_compute. reflexivity.
  - vm_compute. reflexivity.
  - vm_compute. discriminate.
Qed.

(** C4 as stated fails: on the item made of the bytes "a", 0xFF and "b"
    the normalization upper-cases the first character and does not
    leave the rest as it is: the byte 0xFF comes back as the three bytes
    EF BF BD of U+FFFD, in the normalized item and in the ranked list. *)
Lemma rank_rewrites_invalid_rest :
  let rest := String "255" (String "b" EmptyString) in
  let item := String "a" rest in
  let out := String "A" (String "239" (String "191" (String "189"
               (String "b" EmptyString)))) in
  capitalizePhrase ref.ToUpper item = out
  /\ capitalizePhrase ref.ToUpper item <> String "A" rest
  /\ rank ref.ToUpper map_to_list ref.sortSlice [item] = [out]
  /\ ~ In (String "A" rest)
         (rank ref.ToUpper map_to_list ref.sortSlice [item]).
Proof.
  cbv zeta.
  assert (E : rank ref.ToUpper map_to_list ref.sortSlice
                [String "a" (String "255" (String "b" EmptyString))]
              = [String "A" (String "239" (String "191" (String "189"
                   (String "b" EmptyString))))])
    by (vm_compute; reflexivity).
  split; [| split; [| split]].
  - vm_compute. reflexivity.
  - vm_compute. discriminate.
  - exact E.
  - rewrite E. cbn [In]. intros [H | []]. discriminate H.
Qed.

(** C1 as stated fails: the token "a" fails the Script Filter, and the
    noun phrase goes on across it. *)
Lemma chunkPhrases_spans_non_chinese :
  let l1 := [ {| Tag := "NN"; Text := "红" |} ] in
  let t := {| Tag := "NN"; Text := "a" |} in
  let l2 := [ {| Tag := "NN"; Text := "花" |} ] in
  isChineseText ref.Han (Text t) = false
  /\ extractNounPhrases ref.Han (l1 ++ t :: l2) = ["红 花"]%string
  /\ extractNounPhrases ref.Han (l1 ++ t :: l2)
     <> extractNounPhrases ref.Han l1 ++ extractNounPhrases ref.Han l2.
Proof.
  cbv zeta. split; [| split].
  - vm_compute. reflexivity.
  - vm_compute. reflexivity.
  - vm_compute. discriminate.
Qed.

(** ** The reference instances meet the assumptions *)

Lemma ref_Han_range (r : Z) : ref.Han r = true -> 0x2E80 <= r <= 0x323AF.
Proof.
  unfold ref.Han. rewrite existsb_exists.
  intros [[[lo hi] stride] [Hin Hr]].
  unfold ref.inRange in Hr.
  apply andb_true_iff in Hr. destruct Hr as [Hr _].
  apply andb_true_iff in Hr. destruct Hr as [H1 H2].
  apply Z.leb_le in H1, H2.
  unfold ref.Han_table in Hin. cbn [In] in Hin.
  repeat (destruct Hin as [[= <- <- <-] | Hin]; [lia |]).
  destruct Hin.
Qed.

Lemma ref_ToUpper_Han (r : Z) : ref.Han r = true -> ref.ToUpper r = r.
Proof.
  intros H%ref_Han_range. unfold ref.ToUpper.
  destruct ((97 <=? r) && (r <=? 122)) eqn:E; [| reflexivity].
  apply andb_true_iff in E. destruct E as [_ E]. apply Z.leb_le in E. lia.
Qed.

Lemma ref_ToUpper_valid (r : Z) :
  utf8.ValidRune r = true -> utf8.ValidRune (ref.ToUpper r) = true.
Proof.
  unfold ref.ToUpper.
  destruct ((97 <=? r) && (r <=? 122)) eqn:E; [| trivial].
  apply andb_true_iff in E. destruct E as [E1 E2].
  apply Z.leb_le in E1, E2. intros _.
  unfold utf8.ValidRune, utf8.surrogateMin.
  apply orb_true_iff. left. apply andb_true_iff.
  split; [apply Z.leb_le | apply Z.ltb_lt]; lia.
Qed.

Lemma ref_Han_RuneError : ref.Han utf8.RuneError = false.
Proof. reflexivity. Qed.

Lemma ref_Han_cjk (r : Z) : 0x4E00 <= r <= 0x9FA5 -> ref.Han r = true.
Proof.
  intros H. unfold ref.Han. apply existsb_exists.
  exists (0x4e00, 0x9fff, 1). split.
  - unfold ref.Han_table. cbn [In]. tauto.
  - unfold ref.inRange. rewrite Z.mod_1_r.
    apply andb_true_iff. split; [| reflexivity].
    apply andb_true_iff. split; apply Z.leb_le; lia.
Qed.

Lemma ref_rangeMap_perm (m : gmap string nat) : map_to_list m ≡ₚ map_to_list m.
Proof. reflexivity. Qed.

Lemma ref_insert_perm {A} (less : A -> A -> bool) (x : A) (l : list A) :
  ref.insert less x l ≡ₚ x :: l.
Proof.
  induction l as [|y l IH]; cbn [ref.insert]; [reflexivity |].
  destruct (less y x); [| reflexivity].
  rewrite IH. apply Permutation_swap.
Qed.

Lemma ref_sortSlice_perm {A} (less : A -> A -> bool) (l : list A) :
  ref.sortSlice less l ≡ₚ l.
Proof.
  unfold ref.sortSlice. induction l as [|x l IH]; cbn [foldr]; [reflexivity |].
  now rewrite ref_insert_perm, IH.
Qed.

Lemma ref_insert_sorted (x : itemFrequency) (l : list itemFrequency) :
  StronglySorted (fun a b => byFrequency b a = false) l ->
  StronglySorted (fun a b => byFrequency b a = false)
                 (ref.insert byFrequency x l).
Proof.
  induction 1 as [|y l S IH Hy]; cbn [ref.insert].
  - repeat constructor.
  - destruct (byFrequency y x) eqn:E.
    + constructor; [exact IH |].
      rewrite ref_insert_perm. constructor; [| exact Hy].
      unfold byFrequency in *. apply Nat.ltb_lt in E. apply Nat.ltb_ge. lia.
    + constructor; [now constructor |].
      constructor; [unfold byFrequency in *; apply Nat.ltb_ge in E;
                    apply Nat.ltb_ge; lia |].
      eapply Forall_impl; [exact Hy |]. intros z Hz. cbv beta in *.
      unfold byFrequency in *. apply Nat.ltb_ge in E, Hz. apply Nat.ltb_ge. lia.
Qed.

Lemma ref_sortSlice_sorted (l : list itemFrequency) :
  StronglySorted (fun a b => byFrequency b a = false)
                 (ref.sortSlice byFrequency l).
Proof.
  unfold ref.sortSlice. induction l as [|x l IH]; cbn [foldr].
  - constructor.
  - now apply ref_insert_sorted.
Qed.

(** ** Two runs *)




(** ** The properties on concrete inputs *)

Lemma isChineseText_spec_witness :
  isChineseText ref.Han "中a" = false.
Proof.
  apply (proj2 (proj2 (isChineseText_spec ref.Han "中a"))).
  exists 97. vm_compute. repeat split; try discriminate.
  right. left. reflexivity.
Defined.

Lemma extractChineseCharacters_spec_witness :
  length (extractChineseCharacters ref.Han "中-文 a") = 2%nat.
Proof.
  rewrite (proj1 (proj2 (extractChineseCharacters_spec ref.Han "中-文 a"))).
  vm_compute. reflexivity.
Defined.

Lemma capitalizePhrase_chinese_witness :
  capitalizePhrase ref.ToUpper "学霸" = "学霸"%string
  /\ map (capitalizePhrase ref.ToUpper) ["红 花"; "中-文"]%string
     = ["红 花"; "中-文"]%string.
Proof.
  split.
  - apply (proj1 (capitalizePhrase_chinese ref.Han ref.ToUpper
                    ref_ToUpper_Han eq_refl eq_refl ref_Han_RuneError
                    "学霸"%string [])).
    + vm_compute. reflexivity.
    + right. exists 0x5B66, [0x9738]. split; vm_compute; reflexivity.
  - apply (proj2 (proj2 (capitalizePhrase_chinese ref.Han ref.ToUpper
                    ref_ToUpper_Han eq_refl eq_refl ref_Han_RuneError
                    EmptyString ["红 花"; "中-文"]%string))).
    repeat constructor; vm_compute; reflexivity.
Defined.

Lemma chunkPhrases_trailing_flush_witness :
  extractNounPhrases ref.Han
    [ {| Tag := "NN"; Text := "红" |}; {| Tag := "JJ"; Text := "花" |} ]
  = ["红 花"]%string
  /\ extractVerbPhrases ref.Han
       [ {| Tag := "VB"; Text := "跑" |}; {| Tag := "RB"; Text := "快" |} ]
     = ["跑 快"]%string.
Proof.
  split.
  - apply (proj2 (proj2 (proj2
             (chunkPhrases_trailing_flush ref.Han ref_Han_cjk nounGroup []))));
      reflexivity.
  - apply (proj1 (proj2
             (chunkPhrases_trailing_flush ref.Han ref_Han_cjk verbGroup
                [ {| Tag := "VB"; Text := "跑" |};
                  {| Tag := "RB"; Text := "快" |} ]))).
    + discriminate.
    + repeat constructor; vm_compute; reflexivity.
Defined.

Lemma chunkPhrases_boundaries_witness :
  extractNounPhrases ref.Han
    ([ {| Tag := "NN"; Text := "红" |} ]
     ++ {| Tag := "NN"; Text := "a" |} :: [ {| Tag := "NN"; Text := "花" |} ])
  = extractNounPhrases ref.Han
      ([ {| Tag := "NN"; Text := "红" |} ]
       ++ [ {| Tag := "NN"; Text := "花" |} ])
  /\ extractNounPhrases ref.Han
       ([ {| Tag := "NN"; Text := "红" |} ]
        ++ {| Tag := "VB"; Text := "跑" |}
           :: [ {| Tag := "NN"; Text := "花" |} ])
     = extractNounPhrases ref.Han [ {| Tag := "NN"; Text := "红" |} ]
       ++ extractNounPhrases ref.Han [ {| Tag := "NN"; Text := "花" |} ].
Proof.
  split.
  - apply (proj1 (chunkPhrases_boundaries ref.Han nounGroup
                    [ {| Tag := "NN"; Text := "红" |} ]
                    [ {| Tag := "NN"; Text := "花" |} ]
                    {| Tag := "NN"; Text := "a" |})).
    vm_compute. reflexivity.
  - apply (proj1 (proj2 (chunkPhrases_boundaries ref.Han nounGroup
                    [ {| Tag := "NN"; Text := "红" |} ]
                    [ {| Tag := "NN"; Text := "花" |} ]
                    {| Tag := "VB"; Text := "跑" |})));
      vm_compute; reflexivity.
Defined.

Lemma primary_classification_witness :
  categorize ref.Han ref.EqualFold idioms slang
    [ {| Tag := "NN"; Text := "井底之蛙" |}; {| Tag := "VB"; Text := "吃土" |};
      {| Tag := "DT"; Text := "这" |}; {| Tag := "NN"; Text := "cat" |} ]
  !!! "ChineseOtherExpressions"
  = ["这"]%string.
Proof.
  rewrite (proj1 (proj2 (proj2 (proj2 (proj2
             (primary_classification ref.Han ref.EqualFold idioms slang
                [ {| Tag := "NN"; Text := "井底之蛙" |};
                  {| Tag := "VB"; Text := "吃土" |};
                  {| Tag := "DT"; Text := "这" |};
                  {| Tag := "NN"; Text := "cat" |} ])))))).
  vm_compute. reflexivity.
Defined.

Lemma secondary_classification_witness :
  categorize ref.Han ref.EqualFold idioms slang
    [ {| Tag := "NN"; Text := "井底之蛙" |}; {| Tag := "NN"; Text := "井底" |};
      {| Tag := "VB"; Text := "吃土" |} ]
  !!! "ChineseIdioms"
  = ["井底之蛙"]%string
  /\ matchesPhraseList ref.EqualFold "井底" idioms = false.
Proof.
  split.
  - rewrite (proj1
               (secondary_classification ref.Han ref.EqualFold idioms slang
                  [ {| Tag := "NN"; Text := "井底之蛙" |};
                    {| Tag := "NN"; Text := "井底" |};
                    {| Tag := "VB"; Text := "吃土" |} ])).
    vm_compute. reflexivity.
  - destruct (matchesPhraseList ref.EqualFold "井底" idioms) eqn:E;
      [| reflexivity].
    apply (proj1 (proj2 (proj2
             (secondary_classification ref.Han ref.EqualFold idioms slang [])))
          ) in E.
    destruct E as (item & Hin & E). vm_compute in Hin.
    destruct Hin as [<- | [<- | [<- | [<- | []]]]]; vm_compute in E;
      discriminate.
Defined.

Lemma countFrequencies_total_witness :
  sum_list
    ((map_to_list
        (countFrequencies ref.ToUpper ["学霸"; "学霸"; "宅男"]%string)).*2)
  = 3%nat
  /\ exists item, In item ["学霸"; "学霸"; "宅男"]%string
                  /\ "学霸"%string = capitalizePhrase ref.ToUpper item.
Proof.
  split.
  - apply (proj1 (countFrequencies_total ref.ToUpper
                    ["学霸"; "学霸"; "宅男"]%string)).
  - apply (proj2 (countFrequencies_total ref.ToUpper
                    ["学霸"; "学霸"; "宅男"]%string) "学霸"%string 2%nat).
    vm_compute. reflexivity.
Defined.

Lemma rank_spec_witness :
  utf8.ValidString "a学霸" = true
  /\ capitalizePhrase ref.ToUpper "a学霸" = "A学霸"%string
  /\ rank ref.ToUpper map_to_list ref.sortSlice
       ["学霸"; "学霸"; "宅男"]%string
     = ["学霸"; "宅男"]%string.
Proof.
  pose proof (rank_spec ref.Han ref.ToUpper map_to_list ref.sortSlice
                ref_ToUpper_Han ref_ToUpper_valid ref_Han_cjk
                ref_rangeMap_perm (ref_sortSlice_perm byFrequency)
                ref_sortSlice_sorted []) as H.
  cbv zeta in H.
  assert (V : utf8.ValidString "a学霸" = true) by (vm_compute; reflexivity).
  split; [exact V | split].
  - destruct (proj1 H "a学霸"%string V) as [_ ->]. vm_compute. reflexivity.
  - apply H.
Defined.


(** ** More properties on concrete inputs *)

Lemma characters_bucket_witness :
  categorize ref.Han ref.EqualFold idioms slang
    [ {| Tag := "NN"; Text := "学霸" |}; {| Tag := "NN"; Text := "cat" |};
      {| Tag := "VB"; Text := "吃土" |} ]
  !!! "ChineseCharacters"
  = ["学"; "霸"; "吃"; "土"]%string.
Proof.
  rewrite (characters_bucket ref.Han ref.EqualFold idioms slang).
  vm_compute. reflexivity.
Defined.

Lemma categorize_skips_non_chinese_witness :
  categorize ref.Han ref.EqualFold idioms slang
    ([ {| Tag := "NN"; Text := "红" |} ]
     ++ {| Tag := "NN"; Text := "a" |} :: [ {| Tag := "NN"; Text := "花" |} ])
  = categorize ref.Han ref.EqualFold idioms slang
      ([ {| Tag := "NN"; Text := "红" |} ]
       ++ [ {| Tag := "NN"; Text := "花" |} ]).
Proof.
  apply (categorize_skips_non_chinese ref.Han ref.EqualFold idioms slang
           [ {| Tag := "NN"; Text := "红" |} ]
           [ {| Tag := "NN"; Text := "花" |} ]
           {| Tag := "NN"; Text := "a" |}).
  vm_compute. reflexivity.
Defined.

Lemma secondary_in_primary_witness :
  exists t,
    In t [ {| Tag := "NN"; Text := "井底之蛙" |} ]
    /\ Text t = "井底之蛙"%string
    /\ isChineseText ref.Han "井底之蛙" = true
    /\ In "井底之蛙"%string
          (categorize ref.Han ref.EqualFold idioms slang
             [ {| Tag := "NN"; Text := "井底之蛙" |} ]
           !!! primaryCategory (Tag t)).
Proof.
  apply (secondary_in_primary ref.Han ref.EqualFold idioms slang
           [ {| Tag := "NN"; Text := "井底之蛙" |} ] "井底之蛙").
  left. vm_compute. left. reflexivity.
Defined.

Lemma capitalizePhrase_wellformed_witness :
  utf8.ValidString
    (capitalizePhrase ref.ToUpper (String.append "a" (String "255" "b")))
  = true.
Proof.
  apply (capitalizePhrase_wellformed ref.ToUpper ref_ToUpper_valid).
Defined.

Lemma countFrequencies_Permutation_witness :
  countFrequencies ref.ToUpper ["学霸"; "宅男"; "学霸"]%string
  = countFrequencies ref.ToUpper ["宅男"; "学霸"; "学霸"]%string.
Proof.
  apply (countFrequencies_Permutation ref.ToUpper).
  apply perm_swap.
Defined.

Lemma countFrequencies_app_witness :
  default O (countFrequencies ref.ToUpper
               (["学霸"; "宅男"]%string ++ ["学霸"]%string) !! "学霸"%string)
  = (default O (countFrequencies ref.ToUpper ["学霸"; "宅男"]%string
                !! "学霸"%string)
     + default O (countFrequencies ref.ToUpper ["学霸"]%string
                  !! "学霸"%string))%nat.
Proof. apply (countFrequencies_app ref.ToUpper). Defined.

Lemma rank_distinct_witness :
  (length (rank ref.ToUpper map_to_list ref.sortSlice
             ["学霸"; "学霸"; "宅男"]%string) <= 3)%nat.
Proof.
  apply (rank_distinct ref.ToUpper map_to_list ref.sortSlice
           ref_rangeMap_perm (ref_sortSlice_perm byFrequency)
           ["学霸"; "学霸"; "宅男"]%string).
Defined.

Lemma rank_merges_variants_witness :
  rank ref.ToUpper map_to_list ref.sortSlice ["abc"; "Abc"; "abc"]%string
  = ["Abc"]%string.
Proof.
  apply (rank_merges_variants ref.ToUpper map_to_list ref.sortSlice
           ref_rangeMap_perm (ref_sortSlice_perm byFrequency)).
  - discriminate.
  - intros item [<- | [<- | [<- | []]]]; vm_compute; reflexivity.
Defined.

Lemma rank_head_max_witness :
  exists top rest,
    rank ref.ToUpper map_to_list ref.sortSlice ["宅男"; "学霸"; "学霸"]%string
    = top :: rest
    /\ forall k,
         (count_occ string_dec
            (map (capitalizePhrase ref.ToUpper) ["宅男"; "学霸"; "学霸"]%string)
            k
          <= count_occ string_dec
               (map (capitalizePhrase ref.ToUpper)
                    ["宅男"; "学霸"; "学霸"]%string) top)%nat.
Proof.
  apply (rank_head_max ref.ToUpper map_to_list ref.sortSlice
           ref_rangeMap_perm (ref_sortSlice_perm byFrequency)
           ref_sortSlice_sorted).
  discriminate.
Defined.

Lemma isChineseText_app_witness :
  isChineseText ref.Han (String.append "红" " a") = isChineseText ref.Han " a".
Proof.
  apply (isChineseText_app ref.Han ref_Han_RuneError).
  vm_compute. reflexivity.
Defined.

Lemma phrases_pass_filter_witness :
  Forall (fun p => isChineseText ref.Han p = true)
    (chunkPhrases ref.Han nounGroup
       [ {| Tag := "NN"; Text := "红" |}; {| Tag := "JJ"; Text := "花" |};
         {| Tag := "VB"; Text := "跑" |}; {| Tag := "NN"; Text := "人" |} ]).
Proof.
  apply (phrases_pass_filter ref.Han ref.ToUpper ref_ToUpper_Han
           eq_refl eq_refl ref_Han_RuneError).
Defined.

Lemma chunkPhrases_partition_witness :
  chunkPhrases ref.Han verbGroup
    [ {| Tag := "NN"; Text := "红" |}; {| Tag := "VB"; Text := "run" |} ]
  = [].
Proof.
  apply (chunkPhrases_partition ref.Han verbGroup).
  intros t [<- | [<- | []]]; vm_compute; reflexivity.
Defined.

Lemma extractChineseCharacters_roundtrip_witness :
  Join (extractChineseCharacters ref.Han "学霸") EmptyString = "学霸"%string.
Proof.
  apply (extractChineseCharacters_roundtrip ref.Han "学霸").
  - vm_compute. reflexivity.
  - change (utf8.stringtoslicerune "学霸")
      with [0x5B66; 0x9738].
    repeat constructor.
Defined.

Lemma extractChineseCharacters_app_witness :
  extractChineseCharacters ref.Han (String.append "学" "霸a")
  = extractChineseCharacters ref.Han "学"
    ++ extractChineseCharacters ref.Han "霸a".
Proof.
  apply (extractChineseCharacters_app ref.Han).
  vm_compute. reflexivity.
Defined.

Lemma writeCategories_all_witness :
  writeCategories ref.ToUpper map_to_list ref.sortSlice (fun _ => true)
    (categorize ref.Han ref.EqualFold idioms slang
       [ {| Tag := "NN"; Text := "学霸" |} ])
    (rev categoryFiles) ∅
  = (categorizeChineseText ref.Han ref.ToUpper ref.EqualFold map_to_list
       ref.sortSlice [ {| Tag := "NN"; Text := "学霸" |} ] ∪ ∅,
     None).
Proof.
  apply (writeCategories_all ref.Han ref.ToUpper ref.EqualFold map_to_list
           ref.sortSlice).
  - symmetry. apply Permutation_rev.
  - reflexivity.
Defined.

Lemma writeCategories_stops_witness :
  (writeCategories ref.ToUpper map_to_list ref.sortSlice
     (fun f => String.eqb f "ChineseNouns.txt")
     (categorize ref.Han ref.EqualFold idioms slang
        [ {| Tag := "NN"; Text := "学霸" |} ])
     ([ ("ChineseNouns", "ChineseNouns.txt") ]%string
      ++ ("ChineseVerbs", "ChineseVerbs.txt")%string
         :: [ ("ChineseSlang", "ChineseSlang.txt") ]%string)
     ∅).2
  = Some (failedCreate "ChineseVerbs").
Proof.
  apply (writeCategories_stops ref.ToUpper map_to_list ref.sortSlice
           (fun f => String.eqb f "ChineseNouns.txt")
           (categorize ref.Han ref.EqualFold idioms slang
              [ {| Tag := "NN"; Text := "学霸" |} ])
           [ ("ChineseNouns", "ChineseNouns.txt") ]%string
           [ ("ChineseSlang", "ChineseSlang.txt") ]%string
           "ChineseVerbs" "ChineseVerbs.txt" ∅).
  - cbn [map app snd].
    repeat (constructor; [cbn [In]; intuition discriminate |]). constructor.
  - intros c' f' [[= <- <-] | []]. reflexivity.
  - reflexivity.
Defined.

Lemma categorizeChineseTextRun_outcome_witness :
  (categorizeChineseTextRun ref.Han ref.ToUpper ref.EqualFold map_to_list
     ref.sortSlice (fun _ => Some []) (Some (["学霸"]%string, true))
     (fun _ => true) categoryFiles ∅).1
  = ∅.
Proof.
  apply (categorizeChineseTextRun_outcome ref.Han ref.ToUpper ref.EqualFold
           map_to_list ref.sortSlice (fun _ => Some [])
           (Some (["学霸"]%string, true)) (fun _ => true) categoryFiles ∅).
  - reflexivity.
  - right. left. reflexivity.
Defined.

Lemma common_phrases_empty_witness :
  categorizeChineseText ref.Han ref.ToUpper ref.EqualFold map_to_list
    ref.sortSlice [ {| Tag := "NN"; Text := "学霸" |} ]
  !! "ChineseCommonPhrases.txt"
  = Some EmptyString.
Proof.
  apply (common_phrases_empty ref.Han ref.ToUpper ref.EqualFold map_to_list
           ref.sortSlice ref_rangeMap_perm (ref_sortSlice_perm byFrequency)
           idioms slang).
Defined.

Lemma output_files_witness :
  categorizeChineseText ref.Han ref.ToUpper ref.EqualFold map_to_list
    ref.sortSlice []
  !! "ChineseNouns.txt"
  = Some EmptyString.
Proof.
  apply (output_files ref.Han ref.ToUpper ref.EqualFold map_to_list
           ref.sortSlice ref_rangeMap_perm (ref_sortSlice_perm byFrequency)
           [] "ChineseNouns.txt").
  unfold categoryFiles. cbn [map snd In]. tauto.
Defined.
